(** * Item-based rating prediction: [movie_recommendations.py]

    A shallow embedding of the classes [Movie_Recommendations] and [Movie]
    and the properties of the similarity cache and of the prediction
    formula.

    Modelling conventions.
    - Python integers (user and movie identifiers, the counter of
      [compute_similarity]) are [Z].
    - Ratings and similarities are exact rationals [Q]; [==] is equality of
      rationals.  Rounding of binary floating point is outside the model.
      The module [Binary64] repeats the methods of the prediction with
      Python's own arithmetic, IEEE 754 binary64, for what depends on
      the rounded sums and on the test [denominator == 0].
    - [user_dict], [movie_dict] and the [similarities] of a movie are only
      looked up and stored into by key: they are [gmap Z _].  The inner
      dictionary of one user is iterated by [predict_rating], so it keeps
      Python's insertion order: a list of (key, value) pairs.
    - A [Movie] object is referred to by its key in [movie_dict], the only
      place that holds it; mutating the object updates the entry there.
    - Exceptions and mutation are threaded by a state-and-exception monad:
      a raised exception keeps the state reached so far. *)

From Stdlib Require Import PrimInt63 PrimFloat.
From Stdlib Require Import ZArith QArith Qabs Lia Lqa.
From stdpp Require Import gmap strings list fin_maps.

Local Open Scope Z_scope.

(** ** Data model *)

Module Movie.

(** [class Movie]: the four instance variables set by its constructor. *)
Record t := mk {
  id : Z;
  title : string;
  users : list Z;
  similarities : gmap Z Q
}.

(** [Movie(id, title)] *)
Definition new (i : Z) (ttl : string) : t := mk i ttl [] ∅.

(** The object with its [users] replaced. *)
Definition with_users (m : t) (us : list Z) : t :=
  mk (id m) (title m) us (similarities m).

(** The object with its [similarities] replaced. *)
Definition with_similarities (m : t) (c : gmap Z Q) : t :=
  mk (id m) (title m) (users m) c.

End Movie.

(** The dictionary of one user, movie id to rating, in insertion order. *)
Definition ratings := list (Z * Q).

(** [k in d] and [d[k]] *)
Fixpoint dict_get (d : ratings) (k : Z) : option Q :=
  match d with
  | [] => None
  | (k', v) :: d' => if decide (k' = k) then Some v else dict_get d' k
  end.

(** [d.update({k: v})]: an existing key keeps its place and takes the new
    value, a new key goes to the end. *)
Fixpoint dict_set (d : ratings) (k : Z) (v : Q) : ratings :=
  match d with
  | [] => [(k, v)]
  | (k', v') :: d' =>
      if decide (k' = k) then (k', v) :: d' else (k', v') :: dict_set d' k v
  end.

(** [for movie in d]: the keys in insertion order. *)
Definition dict_keys (d : ratings) : list Z := map fst d.

(** The state of a [Movie_Recommendations] object.  [computations] is not
    a field of the program: it is call-count instrumentation, the list of the
    calls of [compute_similarity] made so far (receiver, argument), which no
    operation reads. *)
Record state := mkState {
  user_dict : gmap Z ratings;
  movie_dict : gmap Z Movie.t;
  computations : list (Z * Z)
}.

(** Both dictionaries empty, as [__init__] starts. *)
Definition empty_state : state := mkState ∅ ∅ [].

(** ** Exceptions and the monad *)

(** The exceptions the code can raise: its own [BadInputError], [KeyError]
    of a dictionary lookup, [TypeError] of arithmetic on [None]. *)
Inductive exn := BadInputError | KeyError | TypeError.

(** [except e:] matches the raised exception against [e]. *)
Definition exn_eqb (a b : exn) : bool :=
  match a, b with
  | BadInputError, BadInputError | KeyError, KeyError | TypeError, TypeError => true
  | _, _ => false
  end.

(** A computation returns a value or raises, and leaves a state. *)
Definition M (A : Type) : Type := state -> (exn + A) * state.

(** [return a] *)
Definition ret {A} (a : A) : M A := fun s => (inr a, s).

(** [raise e] *)
Definition raise {A} (e : exn) : M A := fun s => (inl e, s).

(** Sequencing: an exception of [m] skips [f]. *)
Definition bind {A B} (m : M A) (f : A -> M B) : M B :=
  fun s => match m s with
           | (inl e, s') => (inl e, s')
           | (inr a, s') => f a s'
           end.

Notation "x <- m ;; k" := (bind m (fun x => k))
  (at level 100, m at next level, right associativity).

(** Reading and replacing the whole state. *)
Definition get_state : M state := fun s => (inr s, s).

Definition put_state (s' : state) : M unit := fun _ => (inr tt, s').

(** [try: body except e: handler] *)
Definition try_except {A} (body : M A) (e : exn) (handler : M A) : M A :=
  fun s => match body s with
           | (inl e', s') => if exn_eqb e' e then handler s' else (inl e', s')
           | r => r
           end.

(** [d[k]] on a dictionary: [KeyError] on a missing key. *)
Definition getitem {V} (d : gmap Z V) (k : Z) : M V :=
  match d !! k with
  | Some v => ret v
  | None => raise KeyError
  end.

(** [d[k]] on the dictionary of one user. *)
Definition dict_getitem (d : ratings) (k : Z) : M Q :=
  match dict_get d k with
  | Some v => ret v
  | None => raise KeyError
  end.

(** The object behind a reference to a movie. *)
Definition movie_obj (self : Z) : M Movie.t :=
  s <- get_state ;; getitem (movie_dict s) self.

(** [m.similarities[key] = v] on the movie object [m]. *)
Definition store_similarity (m key : Z) (v : Q) : M unit :=
  s <- get_state ;;
  o <- getitem (movie_dict s) m ;;
  put_state (mkState (user_dict s)
               (<[m := Movie.with_similarities o (<[key := v]> (Movie.similarities o))]>
                  (movie_dict s))
               (computations s)).

(** Instrumentation: record one call of [compute_similarity]. *)
Definition count_call (self other : Z) : M unit :=
  fun s => (inr tt, mkState (user_dict s) (movie_dict s) (computations s ++ [(self, other)])).

(** ** [Movie_Recommendations.__init__] *)

(** First loop: one line of the movies file, already parsed. *)
Definition add_movie (line : Z * string) : M unit :=
  s <- get_state ;;
  put_state (mkState (user_dict s)
               (<[line.1 := Movie.new line.1 line.2]> (movie_dict s))
               (computations s)).

(** Second loop: one line (user, movie, rating) of the training file. *)
Definition add_rating (line : Z * Z * Q) : M unit :=
  let '(u, m, r) := line in
  s <- get_state ;;
  _ <- put_state (mkState
         (match user_dict s !! u with
          | Some d => <[u := dict_set d m r]> (user_dict s)
          | None => <[u := [(m, r)]]> (user_dict s)
          end)
         (movie_dict s) (computations s)) ;;
  a <- getitem (movie_dict s) m ;;
  s' <- get_state ;;
  put_state (mkState (user_dict s')
               (<[m := Movie.with_users a (Movie.users a ++ [u])]> (movie_dict s'))
               (computations s')).

(** [for x in l: f(x)] *)
Fixpoint for_each {A} (f : A -> M unit) (l : list A) : M unit :=
  match l with
  | [] => ret tt
  | x :: l' => _ <- f x ;; for_each f l'
  end.

(** The two loops of the constructor, movies first. *)
Definition init (movies : list (Z * string)) (training : list (Z * Z * Q)) : M unit :=
  _ <- for_each add_movie movies ;; for_each add_rating training.

(** The constructed object, or the exception that aborted construction. *)
Definition load (movies : list (Z * string)) (training : list (Z * Z * Q)) : exn + state :=
  match init movies training empty_state with
  | (inr _, s) => inr s
  | (inl e, _) => inl e
  end.

(** ** [Movie.compute_similarity] *)

(** The loop [for user in movie_1_users]; [acc] is [(total, count)]. *)
Fixpoint similarity_loop (self_id other : Z) (movie_2_users : list Z)
    (movie_1_users : list Z) (acc : Q * Z) : M (Q * Z) :=
  match movie_1_users with
  | [] => ret acc
  | user :: rest =>
      if bool_decide (user ∈ movie_2_users) then
        s <- get_state ;;
        d <- getitem (user_dict s) user ;;
        rating <- dict_getitem d self_id ;;
        d2 <- getitem (user_dict s) user ;;
        rating2 <- dict_getitem d2 other ;;
        similarity_loop self_id other movie_2_users rest
          ((acc.1 + Qabs (rating - rating2))%Q, acc.2 + 1)
      else similarity_loop self_id other movie_2_users rest acc
  end.

(** The method on the receiver [self]; the division by 4.5 is by [45 # 10]. *)
Definition compute_similarity (self other : Z) : M Q :=
  _ <- count_call self other ;;
  me <- movie_obj self ;;
  s <- get_state ;;
  o <- getitem (movie_dict s) other ;;
  acc <- similarity_loop (Movie.id me) other (Movie.users o)
           (Movie.users me) (0%Q, 0) ;;
  let (total, count) := acc in
  if count =? 0 then ret 0%Q
  else
    let avg_diff := (total / inject_Z count)%Q in
    ret (1 - avg_diff / (45 # 10))%Q.

(** ** [Movie.get_similarity] *)

(** The value is [None] when the method falls off its end. *)
Definition get_similarity (self other : Z) : M (option Q) :=
  try_except
    (me <- movie_obj self ;;
     match Movie.similarities me !! other with
     | Some v => ret (Some v)
     | None =>
         s <- get_state ;;
         match movie_dict s !! other with
         | None => raise BadInputError
         | Some _ =>
             similarity <- compute_similarity self other ;;
             _ <- store_similarity self other similarity ;;
             _ <- store_similarity other (Movie.id me) similarity ;;
             ret (Some similarity)
         end
     end)
    BadInputError
    (ret None).

(** ** [Movie_Recommendations.predict_rating] *)

(** [x * y] where [y] may be [None]. *)
Definition py_mul (x : Q) (y : option Q) : M Q :=
  match y with Some w => ret (x * w)%Q | None => raise TypeError end.

(** [x + y] where [y] may be [None]. *)
Definition py_add (x : Q) (y : option Q) : M Q :=
  match y with Some w => ret (x + w)%Q | None => raise TypeError end.

(** The loop [for movie in movies_seen]; [acc] is [(numerator, denominator)]. *)
Fixpoint predict_loop (movie_id : Z) (movies_seen : ratings) (keys : list Z)
    (acc : Q * Q) : M (Q * Q) :=
  match keys with
  | [] => ret acc
  | movie :: rest =>
      r <- dict_getitem movies_seen movie ;;
      _ <- movie_obj movie_id ;;
      w <- get_similarity movie_id movie ;;
      x <- py_mul r w ;;
      _ <- movie_obj movie_id ;;
      w' <- get_similarity movie_id movie ;;
      denominator <- py_add acc.2 w' ;;
      predict_loop movie_id movies_seen rest ((acc.1 + x)%Q, denominator)
  end.

(** The method; the fallback 2.5 is [25 # 10]. *)
Definition predict_rating (user_id movie_id : Z) : M Q :=
  s <- get_state ;;
  match user_dict s !! user_id, movie_dict s !! movie_id with
  | Some movies_seen, Some _ =>
      match dict_get movies_seen movie_id with
      | Some r => ret r
      | None =>
          acc <- predict_loop movie_id movies_seen (dict_keys movies_seen) (0%Q, 0%Q) ;;
          let (numerator, denominator) := acc in
          if Qeq_bool denominator 0 then ret (25 # 10)%Q
          else ret (numerator / denominator)%Q
      end
  | _, _ => raise BadInputError
  end.

(** ** [Movie_Recommendations.predict_ratings] *)

(** The loop over the lines (user, movie, actual rating) of the test file,
    already parsed. *)
Fixpoint predict_ratings_loop (lines : list (Z * Z * Q))
    (movie_list : list (Z * string * Q * Q)) : M (list (Z * string * Q * Q)) :=
  match lines with
  | [] => ret movie_list
  | (u, m, actual) :: rest =>
      prediction <- predict_rating u m ;;
      s <- get_state ;;
      mv <- getitem (movie_dict s) m ;;
      predict_ratings_loop rest (movie_list ++ [(u, Movie.title mv, prediction, actual)])
  end.

(** The method, on the parsed lines of the test file. *)
Definition predict_ratings (lines : list (Z * Z * Q)) : M (list (Z * string * Q * Q)) :=
  predict_ratings_loop lines [].

(** ** The scenario of the specification *)

(** Items 1 "A", 2 "B", 3 "C"; user 1 rates 1 and 2, user 2 rates 1 and 2,
    user 3 rates 3. *)
Definition demo_movies : list (Z * string) := [(1, "A"); (2, "B"); (3, "C")]%string.

Definition demo_training : list (Z * Z * Q) :=
  [(1, 1, 5%Q); (1, 2, 3%Q); (2, 1, 4%Q); (2, 2, 2%Q); (3, 3, 1%Q)].

(** The object built from the scenario. *)
Definition demo_state : state :=
  match load demo_movies demo_training with
  | inr s => s
  | inl _ => empty_state
  end.

(** ** Views of the state *)

(** What the Item Catalog holds of a movie besides its cache. *)
Definition item_record (m : Movie.t) : Z * string * list Z :=
  (Movie.id m, Movie.title m, Movie.users m).

(** The Item Catalog without the caches. *)
Definition catalog (s : state) : gmap Z (Z * string * list Z) :=
  item_record <$> movie_dict s.

(** [b in movie_dict[a].similarities], and the value there. *)
Definition cache (s : state) (a b : Z) : option Q :=
  match movie_dict s !! a with
  | Some m => Movie.similarities m !! b
  | None => None
  end.

(** [user_dict[u][m]] when both keys are present. *)
Definition rating_of (s : state) (u m : Z) : option Q :=
  match user_dict s !! u with
  | Some d => dict_get d m
  | None => None
  end.

(** The raters of a movie, its list [users]. *)
Definition raters (s : state) (a : Z) : list Z :=
  match movie_dict s !! a with
  | Some m => Movie.users m
  | None => []
  end.

(** ** The sequence of calls made on a loaded object *)

(** A call made by a client of the object. *)
Inductive call :=
| Predict (user_id movie_id : Z)
| Similarity (self other : Z).

(** The state a call leaves, whether it returns or raises.  A call of
    [get_similarity] is made on [movie_dict[a]]. *)
Definition exec (c : call) (s : state) : state :=
  match c with
  | Predict u i => (predict_rating u i s).2
  | Similarity a b => ((_ <- movie_obj a ;; get_similarity a b) s).2
  end.

(** The state after a sequence of calls. *)
Definition run (cs : list call) (s : state) : state :=
  fold_left (fun s c => exec c s) cs s.

(** ** Operations that leave the two stores alone *)

(** [m] changes neither [user_dict] nor what the catalog holds besides the
    caches, whatever the state and whether or not it raises. *)
Definition keeps_stores {A} (m : M A) : Prop :=
  forall s, user_dict (m s).2 = user_dict s /\ catalog (m s).2 = catalog s.

(** ** Consistency of a loaded object *)

(** How often the similarity of the unordered pair [a], [b] was computed. *)
Definition times_computed (a b : Z) (s : state) : nat :=
  length (filter (fun c => c = (a, b) \/ c = (b, a)) (computations s)).

(** What [__init__] establishes and every later call keeps. *)
Record consistent (s : state) : Prop := {
  ids_are_keys : forall k m, movie_dict s !! k = Some m -> Movie.id m = k;
  raters_rated : forall k u, u ∈ raters s k -> is_Some (rating_of s u k);
  rated_known : forall u m, is_Some (rating_of s u m) -> is_Some (movie_dict s !! m);
  keys_unique : forall u d, user_dict s !! u = Some d -> NoDup (dict_keys d);
  cache_symmetric : forall a b v, cache s a b = Some v -> cache s b a = Some v;
  computed_cached : forall a b, (a, b) ∈ computations s -> is_Some (cache s a b);
  computed_once : forall a b, (times_computed a b s <= 1)%nat
}.

(** ** Storing into a cache *)

(** The state after [store_similarity m key v]. *)
Definition with_cache_entry (s : state) (m key : Z) (v : Q) : state :=
  match movie_dict s !! m with
  | Some o =>
      mkState (user_dict s)
        (<[m := Movie.with_similarities o (<[key := v]> (Movie.similarities o))]>
           (movie_dict s))
        (computations s)
  | None => s
  end.

(** ** The value computed by [compute_similarity] *)

(** [abs(user_dict[u][a] - user_dict[u][b])] *)
Definition abs_diff (s : state) (a b u : Z) : Q :=
  Qabs (default 0%Q (rating_of s u a) - default 0%Q (rating_of s u b)).

(** The entries of [a]'s list of raters that also occur in [b]'s list: a
    rater listed twice for [a] is listed twice here. *)
Definition common_raters (s : state) (a b : Z) : list Z :=
  filter (fun u => u ∈ raters s b) (raters s a).

(** [total] after the loop has run over [us], starting from [t0]. *)
Definition total_abs_diff (s : state) (a b : Z) (us : list Z) (t0 : Q) : Q :=
  fold_left (fun t u => (t + abs_diff s a b u)%Q) us t0.

(** What the end of [compute_similarity] makes of [total] and [count]. *)
Definition similarity_value (s : state) (a b : Z) : Q :=
  let us := common_raters s a b in
  match us with
  | [] => 0%Q
  | _ => (1 - (total_abs_diff s a b us 0 / inject_Z (Z.of_nat (length us))) / (45 # 10))%Q
  end.

(** The state after the call was counted. *)
Definition counted (s : state) (a b : Z) : state :=
  mkState (user_dict s) (movie_dict s) (computations s ++ [(a, b)]).

(** ** The outcome of [get_similarity] *)

(** The state after a computed similarity was stored on both sides. *)
Definition memoized (s : state) (a b : Z) : state :=
  let v := similarity_value s a b in
  with_cache_entry (with_cache_entry (counted s a b) a b v) b a v.

(** What [get_similarity a b] returns: the cached value, else the computed
    one, else [None] for an unknown [b]. *)
Definition similarity_result (s : state) (a b : Z) : option Q :=
  match cache s a b with
  | Some v => Some v
  | None =>
      match movie_dict s !! b with
      | Some _ => Some (similarity_value s a b)
      | None => None
      end
  end.

(** The state [get_similarity a b] leaves. *)
Definition similarity_state (s : state) (a b : Z) : state :=
  match cache s a b with
  | Some v => s
  | None =>
      match movie_dict s !! b with
      | Some _ => memoized s a b
      | None => s
      end
  end.

(** ** The outcome of [predict_rating] *)

(** The weight of a rated movie [m] for the target [i]: what
    [get_similarity] returns for it on the receiver [i]. *)
Definition weight (s : state) (i m : Z) : Q := default 0%Q (similarity_result s i m).

(** [(numerator, denominator)] after the loop has run over [keys]. *)
Definition loop_sums (s : state) (i : Z) (d : ratings) (keys : list Z) (acc : Q * Q) : Q * Q :=
  fold_left (fun nd m => ((nd.1 + default 0%Q (dict_get d m) * weight s i m)%Q,
                          (nd.2 + weight s i m)%Q)) keys acc.

(** The state after the loop has run over [keys]. *)
Definition loop_state (s : state) (i : Z) (keys : list Z) : state :=
  fold_left (fun s m => similarity_state s i m) keys s.

(** The end of [predict_rating]: the quotient, or 2.5 on a zero denominator. *)
Definition prediction_of (nd : Q * Q) : Q :=
  if Qeq_bool nd.2 0 then (25 # 10)%Q else (nd.1 / nd.2)%Q.

(** The invariant of the two loops of [__init__]: the stores are consistent
    and no similarity has been computed or stored. *)
Record loading (s : state) : Prop := {
  l_ids : forall k m, movie_dict s !! k = Some m -> Movie.id m = k;
  l_raters : forall k u, u ∈ raters s k -> is_Some (rating_of s u k);
  l_rated : forall u m, is_Some (rating_of s u m) -> is_Some (movie_dict s !! m);
  l_keys : forall u d, user_dict s !! u = Some d -> NoDup (dict_keys d);
  l_caches : forall k m, movie_dict s !! k = Some m -> Movie.similarities m = ∅;
  l_calls : computations s = []
}.

(** ** Sums of rationals *)

(** The sum of a list of rationals. *)
Definition Qsum (l : list Q) : Q := fold_right Qplus 0%Q l.

(** ** The similarity as an average *)

(** One minus the mean absolute difference over [us], divided by 4.5; zero
    over no rater at all. *)
Definition similarity_over (s : state) (a b : Z) (us : list Z) : Q :=
  match us with
  | [] => 0%Q
  | _ => (1 - (Qsum (map (abs_diff s a b) us) / inject_Z (Z.of_nat (length us)))
              / (45 # 10))%Q
  end.





(** ** [BadInputError] never escapes from the loop of [predict_rating] *)

(** [m] never raises [BadInputError]. *)
Definition no_bad_input {A} (m : M A) : Prop :=
  forall s, (m s).1 <> inl BadInputError.

(** ** The files behind a loaded object *)

(** The lines of the movies file for the id [k]. *)
Definition movie_lines (k : Z) (movies : list (Z * string)) : list (Z * string) :=
  filter (fun l => l.1 = k) movies.

(** The training lines about the movie [m]. *)
Definition lines_of_movie (m : Z) (training : list (Z * Z * Q)) : list (Z * Z * Q) :=
  filter (fun l => l.1.2 = m) training.

(** The training lines of the user [u] about the movie [m]. *)
Definition lines_of_pair (u m : Z) (training : list (Z * Z * Q)) : list (Z * Z * Q) :=
  filter (fun l => l.1.1 = u /\ l.1.2 = m) training.

(** The state of the first loop of [__init__] after the lines [pre]. *)
Record movies_read (pre : list (Z * string)) (s : state) : Prop := {
  mr_users : user_dict s = ∅;
  mr_calls : computations s = [];
  mr_movies : forall k,
    movie_dict s !! k = (fun l => Movie.new k l.2) <$> last (movie_lines k pre)
}.

(** The state of the second loop of [__init__] after the training lines
    [pre], the movies file being [movies]. *)
Record ratings_read (movies : list (Z * string)) (pre : list (Z * Z * Q))
    (s : state) : Prop := {
  rr_calls : computations s = [];
  rr_movies : forall k,
    movie_dict s !! k =
    (fun l => Movie.mk k l.2 (map (fun t => t.1.1) (lines_of_movie k pre)) ∅)
      <$> last (movie_lines k movies);
  rr_ratings : forall u m,
    rating_of s u m = (fun t => t.2) <$> last (lines_of_pair u m pre)
}.

(** ** Bounds and soundness of the caches *)

(** Every stored rating lies between [lo] and [hi]. *)
Definition ratings_within (s : state) (lo hi : Q) : Prop :=
  forall u m r, rating_of s u m = Some r -> (lo <= r <= hi)%Q.

(** Every cached similarity is the value computed for its pair, in one of
    the two directions. *)
Definition cache_sound (s : state) : Prop :=
  forall a b v, cache s a b = Some v ->
    v = similarity_value s a b \/ v = similarity_value s b a.

(** The scenario with one more line: user 3 also rates movie 1. *)
Definition sample_training : list (Z * Z * Q) := demo_training ++ [(3, 1, 2%Q)].

(** The object built from it. *)
Definition sample_state : state :=
  Eval vm_compute in
    match load demo_movies sample_training with
    | inr s => s
    | inl _ => empty_state
    end.

(** ** The same methods in binary64 arithmetic *)

Module Binary64.

(** Ratings and similarities are Python floats: IEEE 754 binary64, with
    its rounding, signed zeros, infinities and NaN.  A Python [int] that
    takes part in float arithmetic (the initial [0] of an accumulator, the
    similarity [0] of two movies without a common rater, the [1] of
    [1 - ...], the counter [count]) is converted to the float of the same
    value, as Python does, so it is a float here from the start. *)

(** [float(n)] for an integer below 2^63 in absolute value. *)
Fixpoint int_of_pos (p : positive) : int :=
  match p with
  | xH => 1%uint63
  | xO q => PrimInt63.lsl (int_of_pos q) 1%uint63
  | xI q => PrimInt63.lor (PrimInt63.lsl (int_of_pos q) 1%uint63) 1%uint63
  end.

Definition float_of_int (z : Z) : float :=
  match z with
  | Z0 => 0%float
  | Zpos p => PrimFloat.of_uint63 (int_of_pos p)
  | Zneg p => PrimFloat.opp (PrimFloat.of_uint63 (int_of_pos p))
  end.

Module Movie.

(** [class Movie] *)
Record t := mk {
  id : Z;
  title : string;
  users : list Z;
  similarities : gmap Z float
}.

(** [Movie(id, title)] *)
Definition new (i : Z) (ttl : string) : t := mk i ttl [] ∅.

(** The object with its [users] replaced. *)
Definition with_users (m : t) (us : list Z) : t :=
  mk (id m) (title m) us (similarities m).

(** The object with its [similarities] replaced. *)
Definition with_similarities (m : t) (c : gmap Z float) : t :=
  mk (id m) (title m) (users m) c.

End Movie.

(** The dictionary of one user, movie id to rating, in insertion order. *)
Definition ratings := list (Z * float).

(** [k in d] and [d[k]] *)
Fixpoint dict_get (d : ratings) (k : Z) : option float :=
  match d with
  | [] => None
  | (k', v) :: d' => if decide (k' = k) then Some v else dict_get d' k
  end.

(** [d.update({k: v})] *)
Fixpoint dict_set (d : ratings) (k : Z) (v : float) : ratings :=
  match d with
  | [] => [(k, v)]
  | (k', v') :: d' =>
      if decide (k' = k) then (k', v) :: d' else (k', v') :: dict_set d' k v
  end.

(** [for movie in d]: the keys in insertion order. *)
Definition dict_keys (d : ratings) : list Z := map fst d.

(** The two dictionaries of a [Movie_Recommendations] object. *)
Record state := mkState {
  user_dict : gmap Z ratings;
  movie_dict : gmap Z Movie.t
}.

Definition empty_state : state := mkState ∅ ∅.

(** A computation returns a value or raises, and leaves a state. *)
Definition M (A : Type) : Type := state -> (exn + A) * state.

Definition ret {A} (a : A) : M A := fun s => (inr a, s).

Definition raise {A} (e : exn) : M A := fun s => (inl e, s).

Definition bind {A B} (m : M A) (f : A -> M B) : M B :=
  fun s => match m s with
           | (inl e, s') => (inl e, s')
           | (inr a, s') => f a s'
           end.

Definition get_state : M state := fun s => (inr s, s).

Definition put_state (s' : state) : M unit := fun _ => (inr tt, s').

(** [try: body except e: handler] *)
Definition try_except {A} (body : M A) (e : exn) (handler : M A) : M A :=
  fun s => match body s with
           | (inl e', s') => if exn_eqb e' e then handler s' else (inl e', s')
           | r => r
           end.

(** [d[k]]: [KeyError] on a missing key. *)
Definition getitem {V} (d : gmap Z V) (k : Z) : M V :=
  match d !! k with
  | Some v => ret v
  | None => raise KeyError
  end.

Definition dict_getitem (d : ratings) (k : Z) : M float :=
  match dict_get d k with
  | Some v => ret v
  | None => raise KeyError
  end.

(** The object behind a reference to a movie. *)
Definition movie_obj (self : Z) : M Movie.t :=
  bind get_state (fun s => getitem (movie_dict s) self).

(** [m.similarities[key] = v] on the movie object [m]. *)
Definition store_similarity (m key : Z) (v : float) : M unit :=
  bind get_state (fun s =>
  bind (getitem (movie_dict s) m) (fun o =>
  put_state (mkState (user_dict s)
               (<[m := Movie.with_similarities o (<[key := v]> (Movie.similarities o))]>
                  (movie_dict s))))).

(** [__init__], first loop: one parsed line of the movies file. *)
Definition add_movie (line : Z * string) : M unit :=
  bind get_state (fun s =>
  put_state (mkState (user_dict s)
               (<[line.1 := Movie.new line.1 line.2]> (movie_dict s)))).

(** [__init__], second loop: one parsed line of the training file. *)
Definition add_rating (line : Z * Z * float) : M unit :=
  let '(u, m, r) := line in
  bind get_state (fun s =>
  bind (put_state (mkState
         (match user_dict s !! u with
          | Some d => <[u := dict_set d m r]> (user_dict s)
          | None => <[u := [(m, r)]]> (user_dict s)
          end)
         (movie_dict s))) (fun _ =>
  bind (getitem (movie_dict s) m) (fun a =>
  bind get_state (fun s' =>
  put_state (mkState (user_dict s')
               (<[m := Movie.with_users a (Movie.users a ++ [u])]> (movie_dict s'))))))).

(** [for x in l: f(x)] *)
Fixpoint for_each {A} (f : A -> M unit) (l : list A) : M unit :=
  match l with
  | [] => ret tt
  | x :: l' => bind (f x) (fun _ => for_each f l')
  end.

Definition init (movies : list (Z * string)) (training : list (Z * Z * float)) : M unit :=
  bind (for_each add_movie movies) (fun _ => for_each add_rating training).

(** The constructed object, or the exception that aborted construction. *)
Definition load (movies : list (Z * string)) (training : list (Z * Z * float)) :
    exn + state :=
  match init movies training empty_state with
  | (inr _, s) => inr s
  | (inl e, _) => inl e
  end.

(** [compute_similarity], the loop [for user in movie_1_users]; [acc] is
    [(total, count)]. *)
Fixpoint similarity_loop (self_id other : Z) (movie_2_users : list Z)
    (movie_1_users : list Z) (acc : float * Z) : M (float * Z) :=
  match movie_1_users with
  | [] => ret acc
  | user :: rest =>
      if bool_decide (user ∈ movie_2_users) then
        bind get_state (fun s =>
        bind (getitem (user_dict s) user) (fun d =>
        bind (dict_getitem d self_id) (fun rating =>
        bind (getitem (user_dict s) user) (fun d2 =>
        bind (dict_getitem d2 other) (fun rating2 =>
        similarity_loop self_id other movie_2_users rest
          ((acc.1 + PrimFloat.abs (rating - rating2))%float, acc.2 + 1))))))
      else similarity_loop self_id other movie_2_users rest acc
  end.

(** [Movie.compute_similarity] *)
Definition compute_similarity (self other : Z) : M float :=
  bind (movie_obj self) (fun me =>
  bind get_state (fun s =>
  bind (getitem (movie_dict s) other) (fun o =>
  bind (similarity_loop (Movie.id me) other (Movie.users o) (Movie.users me)
          (0%float, 0)) (fun acc =>
  let (total, count) := acc in
  if count =? 0 then ret 0%float
  else
    let avg_diff := (total / float_of_int count)%float in
    ret (1 - avg_diff / 4.5)%float)))).

(** [Movie.get_similarity]; the value is [None] when the method falls off
    its end. *)
Definition get_similarity (self other : Z) : M (option float) :=
  try_except
    (bind (movie_obj self) (fun me =>
     match Movie.similarities me !! other with
     | Some v => ret (Some v)
     | None =>
         bind get_state (fun s =>
         match movie_dict s !! other with
         | None => raise BadInputError
         | Some _ =>
             bind (compute_similarity self other) (fun similarity =>
             bind (store_similarity self other similarity) (fun _ =>
             bind (store_similarity other (Movie.id me) similarity) (fun _ =>
             ret (Some similarity))))
         end)
     end))
    BadInputError
    (ret None).

(** [x * y] and [x + y] where [y] may be [None]. *)
Definition py_mul (x : float) (y : option float) : M float :=
  match y with Some w => ret (x * w)%float | None => raise TypeError end.

Definition py_add (x : float) (y : option float) : M float :=
  match y with Some w => ret (x + w)%float | None => raise TypeError end.

(** [predict_rating], the loop [for movie in movies_seen]; [acc] is
    [(numerator, denominator)]. *)
Fixpoint predict_loop (movie_id : Z) (movies_seen : ratings) (keys : list Z)
    (acc : float * float) : M (float * float) :=
  match keys with
  | [] => ret acc
  | movie :: rest =>
      bind (dict_getitem movies_seen movie) (fun r =>
      bind (movie_obj movie_id) (fun _ =>
      bind (get_similarity movie_id movie) (fun w =>
      bind (py_mul r w) (fun x =>
      bind (movie_obj movie_id) (fun _ =>
      bind (get_similarity movie_id movie) (fun w' =>
      bind (py_add acc.2 w') (fun denominator =>
      predict_loop movie_id movies_seen rest ((acc.1 + x)%float, denominator))))))))
  end.

(** [Movie_Recommendations.predict_rating]; [denominator == 0] is the
    comparison of floats, true of both zeros and false of NaN. *)
Definition predict_rating (user_id movie_id : Z) : M float :=
  bind get_state (fun s =>
  match user_dict s !! user_id, movie_dict s !! movie_id with
  | Some movies_seen, Some _ =>
      match dict_get movies_seen movie_id with
      | Some r => ret r
      | None =>
          bind (predict_loop movie_id movies_seen (dict_keys movies_seen)
                  (0%float, 0%float)) (fun acc =>
          let (numerator, denominator) := acc in
          if PrimFloat.eqb denominator 0%float then ret 2.5%float
          else ret (numerator / denominator)%float)
      end
  | _, _ => raise BadInputError
  end).

(** *** Views of the state *)

(** [b in movie_dict[a].similarities], and the value there. *)
Definition cache (s : state) (a b : Z) : option float :=
  match movie_dict s !! a with
  | Some m => Movie.similarities m !! b
  | None => None
  end.

(** [user_dict[u][m]] when both keys are present. *)
Definition rating_of (s : state) (u m : Z) : option float :=
  match user_dict s !! u with
  | Some d => dict_get d m
  | None => None
  end.

(** The raters of a movie, its list [users]. *)
Definition raters (s : state) (a : Z) : list Z :=
  match movie_dict s !! a with
  | Some m => Movie.users m
  | None => []
  end.

(** What [movie_dict] holds of each movie besides its cache. *)
Definition catalog (s : state) : gmap Z (Z * string * list Z) :=
  (fun m => (Movie.id m, Movie.title m, Movie.users m)) <$> movie_dict s.

(** What [__init__] establishes and no call changes. *)
Record well_formed (s : state) : Prop := {
  ids_are_keys : forall k m, movie_dict s !! k = Some m -> Movie.id m = k;
  raters_rated : forall k u, u ∈ raters s k -> is_Some (rating_of s u k);
  rated_known : forall u m, is_Some (rating_of s u m) -> is_Some (movie_dict s !! m);
  keys_unique : forall u d, user_dict s !! u = Some d -> NoDup (dict_keys d)
}.

(** [abs(user_dict[u][a] - user_dict[u][b])] *)
Definition abs_diff (s : state) (a b u : Z) : float :=
  PrimFloat.abs (default 0%float (rating_of s u a) - default 0%float (rating_of s u b))%float.

(** The entries of [a]'s list of raters that also occur in [b]'s list. *)
Definition common_raters (s : state) (a b : Z) : list Z :=
  filter (fun u => u ∈ raters s b) (raters s a).

(** The value [compute_similarity a b] returns: [total] is summed from 0 in
    the order of [a]'s list of raters, each operation rounded. *)
Definition similarity_value (s : state) (a b : Z) : float :=
  let us := common_raters s a b in
  match us with
  | [] => 0%float
  | _ =>
      let total := fold_left (fun t u => (t + abs_diff s a b u)%float) us 0%float in
      (1 - (total / float_of_int (Z.of_nat (length us))) / 4.5)%float
  end.

(** The similarity [get_similarity a b] returns for a known [b]: the
    cached value if there is one, the computed value otherwise. *)
Definition weight (s : state) (a b : Z) : float :=
  match cache s a b with
  | Some v => v
  | None => similarity_value s a b
  end.

(** The state after [store_similarity m key v]. *)
Definition with_cache_entry (s : state) (m key : Z) (v : float) : state :=
  match movie_dict s !! m with
  | Some o =>
      mkState (user_dict s)
        (<[m := Movie.with_similarities o (<[key := v]> (Movie.similarities o))]>
           (movie_dict s))
  | None => s
  end.

(** The state [get_similarity a b] leaves, for a known [b]. *)
Definition similarity_state (s : state) (a b : Z) : state :=
  match cache s a b with
  | Some _ => s
  | None =>
      let v := similarity_value s a b in
      with_cache_entry (with_cache_entry s a b v) b a v
  end.

(** The state after the loop of [predict_rating] has run over [keys]. *)
Definition loop_state (s : state) (i : Z) (keys : list Z) : state :=
  fold_left (fun s m => similarity_state s i m) keys s.

(** [numerator] and [denominator] as the loop accumulates them, from 0 and
    in the order of the user's dictionary. *)
Definition numerator_of (s : state) (i : Z) (d : ratings) (n0 : float) : float :=
  fold_left (fun n kr => (n + kr.2 * weight s i kr.1)%float) d n0.

Definition denominator_of (s : state) (i : Z) (d : ratings) (d0 : float) : float :=
  fold_left (fun dn kr => (dn + weight s i kr.1)%float) d d0.

(** The scenario with one more line, user 3 rating movie 1 as well. *)
Definition sample_movies : list (Z * string) := [(1, "A"); (2, "B"); (3, "C")]%string.

Definition sample_training : list (Z * Z * float) :=
  [(1, 1, 5%float); (1, 2, 3%float); (2, 1, 4%float); (2, 2, 2%float);
   (3, 3, 1%float); (3, 1, 2%float)].

Definition sample_state : state :=
  Eval vm_compute in
    match load sample_movies sample_training with
    | inr s => s
    | inl _ => empty_state
    end.

(** The scenario of the specification itself. *)
Definition demo_training : list (Z * Z * float) :=
  [(1, 1, 5%float); (1, 2, 3%float); (2, 1, 4%float); (2, 2, 2%float);
   (3, 3, 1%float)].

Definition demo_state : state :=
  Eval vm_compute in
    match load sample_movies demo_training with
    | inr s => s
    | inl _ => empty_state
    end.

(** Three rated movies whose similarities to movie 4 are 2/9, -1/9 and
    -1/9 in exact arithmetic: as floats they do not sum to zero. *)
Definition cancelling_movies : list (Z * string) :=
  [(1, "A"); (2, "B"); (3, "C"); (4, "D")]%string.

Definition cancelling_training : list (Z * Z * float) :=
  [(1, 1, 1%float); (1, 2, 2%float); (1, 3, 3%float);
   (2, 1, 0%float); (2, 4, 3.5%float);
   (3, 2, 0%float); (3, 4, 5%float);
   (4, 3, 0%float); (4, 4, 5%float)].

Definition cancelling_state : state :=
  Eval vm_compute in
    match load cancelling_movies cancelling_training with
    | inr s => s
    | inl _ => empty_state
    end.

End Binary64.

(** * Proofs *)

(** ** Monad laws used by the proofs *)

Lemma bind_inr {A B} (m : M A) (f : A -> M B) s a s' :
  m s = (inr a, s') -> bind m f s = f a s'.
Proof. unfold bind. intros ->. reflexivity. Qed.

Lemma bind_inl {A B} (m : M A) (f : A -> M B) s e s' :
  m s = (inl e, s') -> bind m f s = (inl e, s').
Proof. unfold bind. intros ->. reflexivity. Qed.

Lemma getitem_Some {V} (d : gmap Z V) k v s :
  d !! k = Some v -> getitem d k s = (inr v, s).
Proof. unfold getitem. intros ->. reflexivity. Qed.

Lemma getitem_None {V} (d : gmap Z V) k s :
  d !! k = None -> getitem d k s = (inl KeyError, s).
Proof. unfold getitem. intros ->. reflexivity. Qed.

Lemma movie_obj_Some s a m :
  movie_dict s !! a = Some m -> movie_obj a s = (inr m, s).
Proof. intros H. unfold movie_obj, bind, get_state. by rewrite (getitem_Some _ _ _ _ H). Qed.

Lemma movie_obj_None s a :
  movie_dict s !! a = None -> movie_obj a s = (inl KeyError, s).
Proof. intros H. unfold movie_obj, bind, get_state. by rewrite (getitem_None _ _ _ H). Qed.

(** ** Frame: the two stores are left alone *)

Lemma keeps_ret {A} (a : A) : keeps_stores (ret a).
Proof. by intros s. Qed.

Lemma keeps_raise {A} e : keeps_stores (@raise A e).
Proof. by intros s. Qed.

Lemma keeps_get_state : keeps_stores get_state.
Proof. by intros s. Qed.

Lemma keeps_bind {A B} (m : M A) (f : A -> M B) :
  keeps_stores m -> (forall a, keeps_stores (f a)) -> keeps_stores (bind m f).
Proof.
  intros Hm Hf s. unfold bind. specialize (Hm s).
  destruct (m s) as [[e|a] s1]; simpl in *; [done|].
  destruct (Hf a s1) as [-> ->]. done.
Qed.

Lemma keeps_try_except {A} (body handler : M A) e :
  keeps_stores body -> keeps_stores handler -> keeps_stores (try_except body e handler).
Proof.
  intros Hb Hh s. unfold try_except. specialize (Hb s).
  destruct (body s) as [[e'|a] s1]; simpl in *; [|done].
  destruct (exn_eqb e' e); [|done].
  destruct (Hh s1) as [-> ->]. done.
Qed.

Lemma keeps_getitem {V} (d : gmap Z V) k : keeps_stores (getitem d k).
Proof. unfold getitem. destruct (d !! k); [apply keeps_ret | apply keeps_raise]. Qed.

Lemma keeps_dict_getitem d k : keeps_stores (dict_getitem d k).
Proof. unfold dict_getitem. destruct (dict_get d k); [apply keeps_ret | apply keeps_raise]. Qed.

Lemma keeps_movie_obj a : keeps_stores (movie_obj a).
Proof. apply keeps_bind; [apply keeps_get_state | intros; apply keeps_getitem]. Qed.

Lemma keeps_count_call a b : keeps_stores (count_call a b).
Proof. by intros s. Qed.

Lemma keeps_py_mul x y : keeps_stores (py_mul x y).
Proof. destruct y; [apply keeps_ret | apply keeps_raise]. Qed.

Lemma keeps_py_add x y : keeps_stores (py_add x y).
Proof. destruct y; [apply keeps_ret | apply keeps_raise]. Qed.

Lemma catalog_insert_cache s m o c :
  movie_dict s !! m = Some o ->
  item_record <$> <[m := Movie.with_similarities o c]> (movie_dict s) = catalog s.
Proof.
  intros Ho. unfold catalog. apply map_eq. intros k.
  rewrite !lookup_fmap, lookup_insert.
  case_decide; subst; [by rewrite Ho | done].
Qed.

Lemma keeps_store_similarity m key v : keeps_stores (store_similarity m key v).
Proof.
  intros s. unfold store_similarity, bind, get_state, getitem.
  destruct (movie_dict s !! m) as [o|] eqn:Ho; simpl; [|done].
  split; [done|]. unfold catalog at 1. simpl. by apply catalog_insert_cache.
Qed.

Create HintDb stores.
#[export] Hint Resolve keeps_ret keeps_raise keeps_get_state keeps_getitem
  keeps_dict_getitem keeps_movie_obj keeps_count_call keeps_py_mul keeps_py_add
  keeps_store_similarity : stores.

Lemma keeps_similarity_loop self_id other m2 m1 acc :
  keeps_stores (similarity_loop self_id other m2 m1 acc).
Proof.
  revert acc. induction m1 as [|user rest IH]; intros acc; simpl; [auto with stores|].
  case_bool_decide; [|apply IH].
  repeat (apply keeps_bind; [auto with stores | intros]). apply IH.
Qed.

Lemma keeps_compute_similarity a b : keeps_stores (compute_similarity a b).
Proof.
  unfold compute_similarity.
  repeat (apply keeps_bind; [auto using keeps_similarity_loop with stores | intros]).
  match goal with acc : (Q * Z)%type |- _ => destruct acc as [total count] end.
  destruct (count =? 0); auto with stores.
Qed.

Lemma keeps_get_similarity a b : keeps_stores (get_similarity a b).
Proof.
  unfold get_similarity. apply keeps_try_except; [|auto with stores].
  apply keeps_bind; [auto with stores | intros me].
  destruct (Movie.similarities me !! b); [auto with stores|].
  apply keeps_bind; [auto with stores | intros s].
  destruct (movie_dict s !! b); [|auto with stores].
  repeat (apply keeps_bind; [auto using keeps_compute_similarity with stores | intros]).
  auto with stores.
Qed.

Lemma keeps_predict_loop i d keys acc : keeps_stores (predict_loop i d keys acc).
Proof.
  revert acc. induction keys as [|movie rest IH]; intros acc; simpl; [auto with stores|].
  repeat (apply keeps_bind; [auto using keeps_get_similarity with stores | intros]).
  apply IH.
Qed.

Lemma keeps_predict_rating u i : keeps_stores (predict_rating u i).
Proof.
  unfold predict_rating. apply keeps_bind; [auto with stores | intros s].
  destruct (user_dict s !! u) as [d|]; [|auto with stores].
  destruct (movie_dict s !! i); [|auto with stores].
  destruct (dict_get d i); [auto with stores|].
  apply keeps_bind; [apply keeps_predict_loop | intros [n dn]].
  destruct (Qeq_bool dn 0); auto with stores.
Qed.

(** ** Consistency is a property of the views *)

Lemma catalog_lookup s k :
  catalog s !! k = item_record <$> movie_dict s !! k.
Proof. unfold catalog. by rewrite lookup_fmap. Qed.

Lemma catalog_eq_known s s' k :
  catalog s' = catalog s -> is_Some (movie_dict s' !! k) <-> is_Some (movie_dict s !! k).
Proof.
  intros H. assert (Hk := catalog_lookup s k). rewrite <- H, catalog_lookup in Hk.
  destruct (movie_dict s' !! k), (movie_dict s !! k); simpl in Hk; done.
Qed.

Lemma catalog_eq_record s s' k m' :
  catalog s' = catalog s -> movie_dict s' !! k = Some m' ->
  exists m, movie_dict s !! k = Some m /\ item_record m = item_record m'.
Proof.
  intros H Hm'. assert (Hk := catalog_lookup s k). rewrite <- H, catalog_lookup, Hm' in Hk.
  destruct (movie_dict s !! k) as [m|]; simpl in Hk; [|done].
  exists m. split; [done | congruence].
Qed.

Lemma catalog_eq_raters s s' k :
  catalog s' = catalog s -> raters s' k = raters s k.
Proof.
  intros H. unfold raters.
  destruct (movie_dict s' !! k) as [m'|] eqn:Hm'.
  - destruct (catalog_eq_record _ _ _ _ H Hm') as (m & -> & Hr).
    unfold item_record in Hr. congruence.
  - destruct (movie_dict s !! k) as [m|] eqn:Hm; [|done].
    assert (is_Some (movie_dict s' !! k)) as [? ?]
      by (apply (catalog_eq_known s s' k H); eauto).
    congruence.
Qed.

Lemma user_dict_eq_rating s s' u m :
  user_dict s' = user_dict s -> rating_of s' u m = rating_of s u m.
Proof. unfold rating_of. by intros ->. Qed.

(** Consistency only depends on the stores, the caches and the counter. *)
Lemma consistent_frame s s' :
  consistent s ->
  user_dict s' = user_dict s -> catalog s' = catalog s ->
  (forall a b v, cache s' a b = Some v -> cache s' b a = Some v) ->
  (forall a b, (a, b) ∈ computations s' -> is_Some (cache s' a b)) ->
  (forall a b, (times_computed a b s' <= 1)%nat) ->
  consistent s'.
Proof.
  intros [I1 I2 I3 I4 _ _ _] Hu Hc Hsym Hcc Honce. split; try done.
  - intros k m' Hm'. destruct (catalog_eq_record _ _ _ _ Hc Hm') as (m & Hm & Hr).
    unfold item_record in Hr. apply I1 in Hm. congruence.
  - intros k u. rewrite (catalog_eq_raters _ _ _ Hc), (user_dict_eq_rating _ _ _ _ Hu). apply I2.
  - intros u m. rewrite (user_dict_eq_rating _ _ _ _ Hu), (catalog_eq_known _ _ _ Hc). apply I3.
  - intros u d. rewrite Hu. apply I4.
Qed.

(** ** Storing into a cache *)

Lemma store_similarity_known s m key v :
  is_Some (movie_dict s !! m) ->
  store_similarity m key v s = (inr tt, with_cache_entry s m key v).
Proof.
  intros [o Ho]. unfold store_similarity, with_cache_entry, bind, get_state, getitem.
  by rewrite Ho.
Qed.

Lemma cache_with_cache_entry s m key v x y :
  is_Some (movie_dict s !! m) ->
  cache (with_cache_entry s m key v) x y =
  if decide (x = m /\ y = key) then Some v else cache s x y.
Proof.
  intros [o Ho]. unfold with_cache_entry, cache. rewrite Ho. simpl.
  rewrite lookup_insert. destruct (decide (m = x)) as [->|Hm].
  - simpl. rewrite lookup_insert. rewrite Ho.
    destruct (decide (key = y)) as [->|Hk].
    + by rewrite decide_True.
    + rewrite decide_False; [done | intros [_ ?]; done].
  - rewrite decide_False; [done | intros [? _]; done].
Qed.

Lemma stores_with_cache_entry s m key v :
  user_dict (with_cache_entry s m key v) = user_dict s /\
  catalog (with_cache_entry s m key v) = catalog s /\
  computations (with_cache_entry s m key v) = computations s.
Proof.
  unfold with_cache_entry. destruct (movie_dict s !! m) as [o|] eqn:Ho; [|done].
  simpl. split_and!; try done. unfold catalog at 1. simpl. by apply catalog_insert_cache.
Qed.

(** ** What [compute_similarity] returns *)

Lemma similarity_loop_spec s a b B A acc :
  (forall u, u ∈ A -> u ∈ B -> is_Some (rating_of s u a) /\ is_Some (rating_of s u b)) ->
  similarity_loop a b B A acc s =
  (inr (fold_left (fun t u => (t + abs_diff s a b u)%Q) (filter (fun u => u ∈ B) A) acc.1,
        acc.2 + Z.of_nat (length (filter (fun u => u ∈ B) A))), s).
Proof.
  revert acc. induction A as [|user rest IH]; intros [total count] Hr; simpl.
  - unfold ret. by rewrite Z.add_0_r.
  - rewrite filter_cons. case_bool_decide as Hin.
    + rewrite decide_True by done.
      destruct (Hr user) as [[r Hra] [r2 Hrb]]; [left | done |].
      assert (exists d, user_dict s !! user = Some d /\ dict_get d a = Some r /\
                        dict_get d b = Some r2) as (d & Hd & Hda & Hdb).
      { unfold rating_of in Hra, Hrb. destruct (user_dict s !! user) as [d|]; [|done]. eauto. }
      unfold bind at 1. unfold get_state.
      rewrite (bind_inr _ _ _ _ _ (getitem_Some _ _ _ s Hd)).
      unfold dict_getitem. rewrite Hda. unfold bind at 1, ret at 1.
      rewrite (bind_inr _ _ _ _ _ (getitem_Some _ _ _ s Hd)).
      rewrite Hdb. unfold bind at 1, ret at 1.
      rewrite IH by (intros; apply Hr; [by right | done]).
      assert (abs_diff s a b user = Qabs (r - r2)) as Habs
        by (unfold abs_diff; by rewrite Hra, Hrb).
      cbn [fst snd length fold_left]. rewrite Habs. do 3 f_equal. lia.
    + rewrite decide_False by done. apply IH. intros; apply Hr; [by right | done].
Qed.

Lemma compute_similarity_spec s a b :
  consistent s -> is_Some (movie_dict s !! a) -> is_Some (movie_dict s !! b) ->
  compute_similarity a b s = (inr (similarity_value s a b), counted s a b).
Proof.
  intros Hs [ma Ha] [mb Hb]. unfold compute_similarity.
  unfold bind at 1. unfold count_call. fold (counted s a b).
  rewrite (bind_inr _ _ (counted s a b) ma (counted s a b)) by by apply movie_obj_Some.
  unfold bind at 1. unfold get_state.
  rewrite (bind_inr _ _ _ _ _ (getitem_Some _ _ _ (counted s a b) Hb)).
  rewrite (ids_are_keys s Hs a ma Ha).
  erewrite bind_inr; cycle 1.
  { apply similarity_loop_spec. intros u Hu1 Hu2.
    change (rating_of (counted s a b)) with (rating_of s).
    split; apply (raters_rated s Hs); unfold raters; by rewrite ?Ha, ?Hb. }
  unfold similarity_value, common_raters, total_abs_diff, raters. rewrite Ha, Hb.
  simpl. destruct (filter _ (Movie.users ma)) as [|u us]; [done|].
  replace (0 + Z.of_nat (length (u :: us)) =? 0) with false
    by (symmetry; apply Z.eqb_neq; simpl length; lia).
  by rewrite Z.add_0_l.
Qed.

(** ** The outcomes of [get_similarity] *)

Lemma get_similarity_hit s a b v :
  cache s a b = Some v -> get_similarity a b s = (inr (Some v), s).
Proof.
  unfold cache. intros H. destruct (movie_dict s !! a) as [ma|] eqn:Ha; [|done].
  unfold get_similarity, try_except.
  rewrite (bind_inr _ _ _ _ _ (movie_obj_Some _ _ _ Ha)). by rewrite H.
Qed.

Lemma get_similarity_unknown s a b :
  is_Some (movie_dict s !! a) -> cache s a b = None -> movie_dict s !! b = None ->
  get_similarity a b s = (inr None, s).
Proof.
  intros [ma Ha] H Hb. unfold cache in H. rewrite Ha in H.
  unfold get_similarity, try_except.
  rewrite (bind_inr _ _ _ _ _ (movie_obj_Some _ _ _ Ha)). rewrite H.
  unfold bind, get_state. by rewrite Hb.
Qed.

Lemma get_similarity_no_receiver s a b :
  movie_dict s !! a = None -> get_similarity a b s = (inl KeyError, s).
Proof.
  intros Ha. unfold get_similarity, try_except.
  by rewrite (bind_inl _ _ _ _ _ (movie_obj_None _ _ Ha)).
Qed.

Lemma known_counted s a b k :
  movie_dict (counted s a b) !! k = movie_dict s !! k.
Proof. done. Qed.

Lemma known_with_cache_entry s m key v k :
  is_Some (movie_dict (with_cache_entry s m key v) !! k) <-> is_Some (movie_dict s !! k).
Proof.
  apply catalog_eq_known. apply stores_with_cache_entry.
Qed.

Lemma get_similarity_miss s a b :
  consistent s -> is_Some (movie_dict s !! a) -> is_Some (movie_dict s !! b) ->
  cache s a b = None ->
  get_similarity a b s = (inr (Some (similarity_value s a b)), memoized s a b).
Proof.
  intros Hs [ma Ha] [mb Hb] H. unfold cache in H. rewrite Ha in H.
  unfold get_similarity, try_except.
  rewrite (bind_inr _ _ _ _ _ (movie_obj_Some _ _ _ Ha)). rewrite H.
  unfold bind at 1. unfold get_state. rewrite Hb.
  rewrite (bind_inr _ _ _ _ _ (compute_similarity_spec s a b Hs (ex_intro _ _ Ha) (ex_intro _ _ Hb))).
  erewrite bind_inr; cycle 1.
  { apply store_similarity_known. rewrite known_counted. eauto. }
  erewrite bind_inr; cycle 1.
  { apply store_similarity_known. apply known_with_cache_entry. rewrite known_counted. eauto. }
  rewrite (ids_are_keys s Hs a ma Ha). done.
Qed.

Lemma cache_known s a b : is_Some (cache s a b) -> is_Some (movie_dict s !! a).
Proof. unfold cache. destruct (movie_dict s !! a); [eauto | by intros [? ?]]. Qed.

Lemma cached_known s a b :
  consistent s -> is_Some (cache s a b) -> is_Some (movie_dict s !! b).
Proof.
  intros Hs [v Hv]. apply (cache_known s b a). rewrite (cache_symmetric s Hs a b v Hv). eauto.
Qed.

Theorem get_similarity_spec s a b :
  consistent s -> is_Some (movie_dict s !! a) ->
  get_similarity a b s = (inr (similarity_result s a b), similarity_state s a b).
Proof.
  intros Hs Ha. unfold similarity_result, similarity_state.
  destruct (cache s a b) as [v|] eqn:Hc; [by apply get_similarity_hit|].
  destruct (movie_dict s !! b) as [mb|] eqn:Hb.
  - apply get_similarity_miss; eauto.
  - by apply get_similarity_unknown.
Qed.

(** ** Memoizing keeps the object consistent *)

Lemma cache_memoized s a b x y :
  is_Some (movie_dict s !! a) -> is_Some (movie_dict s !! b) ->
  cache (memoized s a b) x y =
  if decide (x = b /\ y = a) then Some (similarity_value s a b)
  else if decide (x = a /\ y = b) then Some (similarity_value s a b)
  else cache s x y.
Proof.
  intros Ha Hb. unfold memoized.
  rewrite cache_with_cache_entry by (apply known_with_cache_entry; by rewrite known_counted).
  rewrite cache_with_cache_entry by (by rewrite known_counted).
  done.
Qed.

Lemma stores_memoized s a b :
  user_dict (memoized s a b) = user_dict s /\
  catalog (memoized s a b) = catalog s /\
  computations (memoized s a b) = computations s ++ [(a, b)].
Proof.
  unfold memoized.
  destruct (stores_with_cache_entry
              (with_cache_entry (counted s a b) a b (similarity_value s a b))
              b a (similarity_value s a b)) as (-> & -> & ->).
  destruct (stores_with_cache_entry (counted s a b) a b (similarity_value s a b))
    as (-> & -> & ->).
  done.
Qed.

Lemma times_computed_snoc s s' a b x y :
  computations s' = computations s ++ [(a, b)] ->
  times_computed x y s' =
  (times_computed x y s +
   if decide ((a, b) = (x, y) \/ (a, b) = (y, x)) then 1 else 0)%nat.
Proof.
  intros H. unfold times_computed. rewrite H, filter_app, length_app.
  f_equal. rewrite filter_cons, filter_nil. by case_decide.
Qed.

Lemma times_computed_0 s x y :
  (forall c, c ∈ computations s -> c <> (x, y) /\ c <> (y, x)) ->
  times_computed x y s = 0%nat.
Proof.
  intros H. unfold times_computed.
  induction (computations s) as [|c cs IH]; [done|].
  rewrite filter_cons, decide_False.
  - apply IH. intros c' Hc'. apply H. by right.
  - destruct (H c) as [? ?]; [by left|]. intros [?|?]; done.
Qed.

Lemma consistent_memoized s a b :
  consistent s -> is_Some (movie_dict s !! a) -> is_Some (movie_dict s !! b) ->
  cache s a b = None -> consistent (memoized s a b).
Proof.
  intros Hs Ha Hb Hmiss.
  assert (Hmiss' : cache s b a = None).
  { destruct (cache s b a) as [w|] eqn:Hw; [|done].
    apply (cache_symmetric s Hs) in Hw. congruence. }
  destruct (stores_memoized s a b) as (Hu & Hc & Hl).
  apply (consistent_frame s); try done.
  - intros x y w. rewrite !cache_memoized by done. intros Hxy.
    destruct (decide (x = b /\ y = a)) as [[-> ->]|N1].
    { destruct (decide (a = b /\ b = a)); [done|]. by rewrite decide_True. }
    destruct (decide (x = a /\ y = b)) as [[-> ->]|N2].
    { by rewrite decide_True. }
    rewrite decide_False by (intros [-> ->]; by apply N2).
    rewrite decide_False by (intros [-> ->]; by apply N1).
    by apply (cache_symmetric s Hs).
  - intros x y. rewrite Hl, elem_of_app, list_elem_of_singleton, cache_memoized by done.
    intros Hxy. repeat case_decide; eauto.
    destruct Hxy as [Hxy|Hxy]; [by apply (computed_cached s Hs)|].
    injection Hxy as -> ->. exfalso. eauto.
  - intros x y. rewrite (times_computed_snoc s _ a b x y Hl).
    case_decide as Hp; [|pose proof (computed_once s Hs x y); lia].
    rewrite times_computed_0; [done|].
    intros c Hc'. destruct c as [c1 c2].
    apply (computed_cached s Hs) in Hc' as [w Hw].
    split; intros Heq; injection Heq as -> ->.
    + destruct Hp as [Hp|Hp]; injection Hp as -> ->; congruence.
    + apply (cache_symmetric s Hs) in Hw.
      destruct Hp as [Hp|Hp]; injection Hp as -> ->; congruence.
Qed.

Lemma consistent_similarity_state s a b :
  consistent s -> is_Some (movie_dict s !! a) -> consistent (similarity_state s a b).
Proof.
  intros Hs Ha. unfold similarity_state.
  destruct (cache s a b) eqn:Hc; [done|].
  destruct (movie_dict s !! b) eqn:Hb; [|done].
  apply consistent_memoized; eauto.
Qed.

Lemma stores_similarity_state s a b :
  user_dict (similarity_state s a b) = user_dict s /\
  catalog (similarity_state s a b) = catalog s.
Proof.
  unfold similarity_state.
  destruct (cache s a b); [done|]. destruct (movie_dict s !! b); [|done].
  destruct (stores_memoized s a b) as (? & ? & _). done.
Qed.

(** A cache entry, once there, stays and keeps its value. *)
Lemma cache_similarity_state s a b x y w :
  consistent s -> is_Some (movie_dict s !! a) ->
  cache s x y = Some w -> cache (similarity_state s a b) x y = Some w.
Proof.
  intros Hs Ha Hw. unfold similarity_state.
  destruct (cache s a b) eqn:Hc; [done|].
  destruct (movie_dict s !! b) eqn:Hb; [|done].
  rewrite cache_memoized by eauto.
  destruct (decide (x = b /\ y = a)) as [[-> ->]|N1].
  { apply (cache_symmetric s Hs) in Hw. congruence. }
  destruct (decide (x = a /\ y = b)) as [[-> ->]|N2]; [congruence | done].
Qed.

(** ** Later calls on the same receiver return the same similarities *)

(** The computed value reads the two stores only. *)
Lemma similarity_value_frame s s' a b :
  user_dict s' = user_dict s -> catalog s' = catalog s ->
  similarity_value s' a b = similarity_value s a b.
Proof.
  intros Hu Hc. unfold similarity_value, common_raters, total_abs_diff, abs_diff, rating_of.
  by rewrite !(catalog_eq_raters s s' _ Hc), Hu.
Qed.

Lemma similarity_result_known s a b :
  is_Some (movie_dict s !! b) -> is_Some (similarity_result s a b).
Proof.
  intros [mb Hb]. unfold similarity_result. rewrite Hb. destruct (cache s a b); eauto.
Qed.

(** After [get_similarity a b] the cache of [a] answers for [b]. *)
Lemma cache_after_similarity s a b :
  is_Some (movie_dict s !! a) -> is_Some (movie_dict s !! b) ->
  cache (similarity_state s a b) a b = similarity_result s a b /\
  (Movie.id <$> movie_dict s !! a = Some a ->
   cache (similarity_state s a b) b a = similarity_result s a b \/ is_Some (cache s a b)).
Proof.
  intros Ha [mb Hb]. unfold similarity_state, similarity_result.
  destruct (cache s a b) eqn:Hc; [eauto|]. rewrite Hb.
  rewrite !cache_memoized by eauto. split.
  - destruct (decide (a = b /\ b = a)); [done|]. by rewrite decide_True.
  - intros _. left. by rewrite decide_True.
Qed.

(** One call of [get_similarity] on [a] does not change what any later call
    on [a] returns. *)
Lemma similarity_result_stable s a b m :
  consistent s -> is_Some (movie_dict s !! a) ->
  similarity_result (similarity_state s a b) a m = similarity_result s a m.
Proof.
  intros Hs Ha. unfold similarity_state.
  destruct (cache s a b) eqn:Hc; [done|].
  destruct (movie_dict s !! b) as [mb|] eqn:Hb; [|done].
  destruct (stores_memoized s a b) as (Hu & Hcat & _).
  unfold similarity_result at 1. rewrite cache_memoized by eauto.
  assert (Hb' : similarity_result s a b = Some (similarity_value s a b))
    by (unfold similarity_result; by rewrite Hc, Hb).
  destruct (decide (a = b /\ m = a)) as [[<- ->]|N1]; [done|].
  destruct (decide (a = a /\ m = b)) as [[_ ->]|N2]; [done|].
  unfold similarity_result. destruct (cache s a m); [done|].
  rewrite (similarity_value_frame s _ a m Hu Hcat).
  pose proof (catalog_eq_known s (memoized s a b) m Hcat) as Hk.
  destruct (movie_dict (memoized s a b) !! m), (movie_dict s !! m); try done.
  - destruct Hk as [[? ?] _]; eauto; done.
  - destruct Hk as [_ [? ?]]; eauto; done.
Qed.

(** ** What [predict_rating] returns *)

Lemma loop_sums_ext s s' i d keys acc :
  (forall m, similarity_result s' i m = similarity_result s i m) ->
  loop_sums s' i d keys acc = loop_sums s i d keys acc.
Proof.
  intros H. revert acc. unfold loop_sums, weight.
  induction keys as [|m rest IH]; intros acc; [done|].
  simpl. rewrite H. apply IH.
Qed.

Lemma known_similarity_state s a b k :
  is_Some (movie_dict (similarity_state s a b) !! k) <-> is_Some (movie_dict s !! k).
Proof. apply catalog_eq_known. apply stores_similarity_state. Qed.

Lemma predict_loop_spec s i d keys acc :
  consistent s -> is_Some (movie_dict s !! i) ->
  (forall m, m ∈ keys -> is_Some (dict_get d m) /\ is_Some (movie_dict s !! m)) ->
  predict_loop i d keys acc s = (inr (loop_sums s i d keys acc), loop_state s i keys).
Proof.
  revert s acc. induction keys as [|m rest IH]; intros s [n dn] Hs Hi Hkeys; [done|].
  destruct (Hkeys m) as [[r Hr] Hm]; [by left|].
  destruct (similarity_result_known s i m Hm) as [w Hw].
  assert (Hi' : is_Some (movie_dict (similarity_state s i m) !! i))
    by by apply known_similarity_state.
  assert (Hs' := consistent_similarity_state s i m Hs Hi).
  assert (Hc : cache (similarity_state s i m) i m = Some w).
  { rewrite <- Hw. by apply cache_after_similarity. }
  destruct Hi as [mi Hmi]. destruct Hi' as [mi' Hmi'].
  cbn [predict_loop]. unfold dict_getitem. rewrite Hr.
  unfold bind at 1. unfold ret at 1.
  rewrite (bind_inr _ _ _ _ _ (movie_obj_Some _ _ _ Hmi)).
  rewrite (bind_inr _ _ _ _ _ (get_similarity_spec s i m Hs (ex_intro _ _ Hmi))).
  rewrite Hw. unfold py_mul. unfold bind at 1. unfold ret at 1.
  rewrite (bind_inr _ _ _ _ _ (movie_obj_Some _ _ _ Hmi')).
  rewrite (bind_inr _ _ _ _ _ (get_similarity_hit _ i m w Hc)).
  unfold py_add. unfold bind at 1. unfold ret at 1.
  rewrite IH; try done.
  - cbn [loop_state loop_sums fold_left fst snd]. f_equal. f_equal.
    fold (loop_sums (similarity_state s i m) i d rest).
    rewrite (loop_sums_ext s (similarity_state s i m))
      by (intros; apply similarity_result_stable; eauto).
    unfold loop_sums, weight. rewrite Hr, Hw. reflexivity.
  - intros m' Hm'. destruct (Hkeys m') as [? ?]; [by right|].
    split; [done|]. by apply known_similarity_state.
Qed.

Lemma dict_get_keys d m : m ∈ dict_keys d -> is_Some (dict_get d m).
Proof.
  unfold dict_keys. induction d as [|[k v] d IH]; simpl.
  - by intros ?%elem_of_nil.
  - intros [->|H]%elem_of_cons; [by rewrite decide_True|].
    case_decide; eauto.
Qed.

Lemma rated_keys_known s u d m :
  consistent s -> user_dict s !! u = Some d -> m ∈ dict_keys d ->
  is_Some (dict_get d m) /\ is_Some (movie_dict s !! m).
Proof.
  intros Hs Hd Hm. apply dict_get_keys in Hm. split; [done|].
  apply (rated_known s Hs u). unfold rating_of. by rewrite Hd.
Qed.

(** A user who has not rated the target: the loop, then the quotient or 2.5. *)
Theorem predict_rating_unrated s u i d :
  consistent s -> user_dict s !! u = Some d -> is_Some (movie_dict s !! i) ->
  dict_get d i = None ->
  predict_rating u i s =
  (inr (prediction_of (loop_sums s i d (dict_keys d) (0%Q, 0%Q))),
   loop_state s i (dict_keys d)).
Proof.
  intros Hs Hd Hi Hnot. unfold predict_rating. unfold bind at 1. unfold get_state.
  rewrite Hd. destruct Hi as [mi Hmi]. rewrite Hmi, Hnot.
  rewrite (bind_inr _ _ _ _ _
             (predict_loop_spec s i d (dict_keys d) (0%Q, 0%Q) Hs (ex_intro _ _ Hmi)
                (fun m => rated_keys_known s u d m Hs Hd))).
  unfold prediction_of. destruct (loop_sums _ _ _ _ _) as [n dn]. simpl.
  by destruct (Qeq_bool dn 0).
Qed.

(** A user who has rated the target: the stored rating, and nothing else
    happens. *)
Theorem predict_rating_rated s u i d r :
  user_dict s !! u = Some d -> is_Some (movie_dict s !! i) -> dict_get d i = Some r ->
  predict_rating u i s = (inr r, s).
Proof.
  intros Hd [mi Hmi] Hr. unfold predict_rating, bind, get_state.
  by rewrite Hd, Hmi, Hr.
Qed.

Theorem predict_rating_bad_input s u i :
  user_dict s !! u = None \/ movie_dict s !! i = None ->
  predict_rating u i s = (inl BadInputError, s).
Proof.
  intros H. unfold predict_rating, bind, get_state.
  destruct H as [-> | H]; [done|]. rewrite H. by destruct (user_dict s !! u).
Qed.

Lemma consistent_loop_state s i keys :
  consistent s -> is_Some (movie_dict s !! i) -> consistent (loop_state s i keys).
Proof.
  revert s. induction keys as [|m rest IH]; intros s Hs Hi; [done|].
  apply IH; [by apply consistent_similarity_state | by apply known_similarity_state].
Qed.

Lemma cache_loop_state s i keys x y w :
  consistent s -> is_Some (movie_dict s !! i) ->
  cache s x y = Some w -> cache (loop_state s i keys) x y = Some w.
Proof.
  revert s. induction keys as [|m rest IH]; intros s Hs Hi Hw; [done|].
  apply IH; [by apply consistent_similarity_state | by apply known_similarity_state |].
  by apply cache_similarity_state.
Qed.

(** ** [__init__] establishes consistency *)

Lemma dict_get_set d k v k' :
  dict_get (dict_set d k v) k' = if decide (k = k') then Some v else dict_get d k'.
Proof.
  induction d as [|[k0 v0] d IH]; simpl.
  - done.
  - destruct (decide (k0 = k)) as [->|Hk0]; simpl.
    + by destruct (decide (k = k')).
    + rewrite IH. destruct (decide (k0 = k')) as [->|]; [by rewrite decide_False|done].
Qed.

Lemma dict_keys_set d k v x :
  x ∈ dict_keys (dict_set d k v) <-> x = k \/ x ∈ dict_keys d.
Proof.
  unfold dict_keys. induction d as [|[k0 v0] d IH]; simpl.
  - rewrite list_elem_of_singleton. split; [eauto | intros [?|?%elem_of_nil]; done].
  - destruct (decide (k0 = k)) as [->|Hk0]; simpl; rewrite !elem_of_cons.
    + tauto.
    + rewrite IH. tauto.
Qed.

Lemma dict_keys_set_NoDup d k v :
  NoDup (dict_keys d) -> NoDup (dict_keys (dict_set d k v)).
Proof.
  induction d as [|[k0 v0] d IH]; simpl; intros Hd.
  - apply NoDup_singleton.
  - apply NoDup_cons in Hd as [Hk0 Hd].
    destruct (decide (k0 = k)) as [->|Hne]; simpl.
    + by apply NoDup_cons.
    + apply NoDup_cons. split; [|by apply IH].
      rewrite dict_keys_set. intros [?|?]; done.
Qed.

Lemma loading_cache s a b : loading s -> cache s a b = None.
Proof.
  intros Hl. unfold cache. destruct (movie_dict s !! a) as [m|] eqn:Hm; [|done].
  by rewrite (l_caches s Hl a m Hm).
Qed.

Lemma loading_consistent s : loading s -> consistent s.
Proof.
  intros Hl. split; try apply Hl.
  - intros a b v. by rewrite loading_cache.
  - intros a b. rewrite (l_calls s Hl). by intros ?%elem_of_nil.
  - intros a b. unfold times_computed. rewrite (l_calls s Hl). simpl. lia.
Qed.

Lemma loading_empty : loading empty_state.
Proof.
  split; try done.
  - intros k u. unfold raters. simpl. rewrite lookup_empty. by intros ?%elem_of_nil.
  - intros u m. unfold rating_of. simpl. rewrite lookup_empty. by intros [? ?].
Qed.

Lemma add_movie_loading line s :
  loading s -> user_dict s = ∅ ->
  exists s', add_movie line s = (inr tt, s') /\ loading s' /\ user_dict s' = ∅.
Proof.
  intros Hl Hu. eexists. split; [reflexivity|]. simpl. split; [|done].
  assert (Hr : forall s0 u m, user_dict s0 = ∅ -> rating_of s0 u m = None).
  { intros s0 u m H0. unfold rating_of. by rewrite H0, lookup_empty. }
  split; simpl.
  - intros k m. rewrite lookup_insert. case_decide; [by intros [= <-] | apply Hl].
  - intros k u. unfold raters. simpl. rewrite lookup_insert.
    case_decide; [by intros ?%elem_of_nil|].
    intros H'. apply (l_raters s Hl k u) in H'. rewrite Hr in H' by done. by destruct H'.
  - intros u m. rewrite Hr by done. by intros [? ?].
  - intros u d. rewrite Hu, lookup_empty. done.
  - intros k m. rewrite lookup_insert. case_decide; [by intros [= <-] | apply Hl].
  - apply Hl.
Qed.

Lemma for_each_add_movie_loading movies s :
  loading s -> user_dict s = ∅ ->
  exists s', for_each add_movie movies s = (inr tt, s') /\ loading s'.
Proof.
  revert s. induction movies as [|line rest IH]; intros s Hl Hu; simpl.
  - by exists s.
  - destruct (add_movie_loading line s Hl Hu) as (s1 & H1 & Hl1 & Hu1).
    rewrite (bind_inr _ _ _ _ _ H1). by apply IH.
Qed.

Lemma add_rating_loading u m r s s' :
  loading s -> add_rating (u, m, r) s = (inr tt, s') -> loading s'.
Proof.
  intros Hl. unfold add_rating, bind, get_state, put_state, getitem. simpl.
  destruct (movie_dict s !! m) as [a|] eqn:Ha; [|done]. simpl. intros [= <-].
  set (d' := match user_dict s !! u with Some d => dict_set d m r | None => [(m, r)] end).
  assert (Hud : (match user_dict s !! u with
                 | Some d => <[u := dict_set d m r]> (user_dict s)
                 | None => <[u := [(m, r)]]> (user_dict s)
                 end) = <[u := d']> (user_dict s))
    by (unfold d'; by destruct (user_dict s !! u)).
  rewrite Hud. clear Hud.
  assert (Hget : forall k, dict_get d' k =
                   if decide (m = k) then Some r
                   else match user_dict s !! u with Some d => dict_get d k | None => None end).
  { intros k. unfold d'. destruct (user_dict s !! u) as [d|]; [apply dict_get_set|].
    simpl. by destruct (decide (m = k)). }
  assert (Hmono : forall u' k, is_Some (rating_of s u' k) ->
            is_Some (rating_of (mkState (<[u := d']> (user_dict s))
              (<[m := Movie.with_users a (Movie.users a ++ [u])]> (movie_dict s))
              (computations s)) u' k)).
  { intros u' k. unfold rating_of. simpl. rewrite lookup_insert.
    destruct (decide (u = u')) as [<-|]; [|done].
    rewrite Hget. destruct (decide (m = k)); eauto. }
  split; simpl.
  - intros k m0. rewrite lookup_insert.
    case_decide as Hk; [intros [= <-]; simpl; subst k; by apply (l_ids s Hl) | apply Hl].
  - intros k u'. unfold raters at 1. simpl. rewrite lookup_insert.
    destruct (decide (m = k)) as [<-|Hk].
    + simpl. intros [Hin| ->%list_elem_of_singleton]%elem_of_app.
      * apply Hmono, (l_raters s Hl). unfold raters. by rewrite Ha.
      * unfold rating_of. simpl. rewrite lookup_insert_eq, Hget. by rewrite decide_True.
    + intros Hin. by apply Hmono, (l_raters s Hl).
  - intros u' k. unfold rating_of. simpl. rewrite !lookup_insert.
    destruct (decide (m = k)) as [<-|Hk]; [eauto|].
    destruct (decide (u = u')) as [<-|Hu].
    + rewrite Hget, decide_False by done. intros H'.
      apply (l_rated s Hl u). unfold rating_of. by destruct (user_dict s !! u).
    + apply (l_rated s Hl u').
  - intros u' d. rewrite lookup_insert.
    destruct (decide (u = u')) as [<-|Hu]; [|apply Hl].
    intros [= <-]. unfold d'. destruct (user_dict s !! u) as [d0|] eqn:Hd0.
    + apply dict_keys_set_NoDup. by apply (l_keys s Hl u).
    + apply NoDup_singleton.
  - intros k m0. rewrite lookup_insert.
    case_decide; [intros [= <-]; simpl; by apply (l_caches s Hl m) | apply Hl].
  - apply Hl.
Qed.

Lemma for_each_add_rating_loading training s s' :
  loading s -> for_each add_rating training s = (inr tt, s') -> loading s'.
Proof.
  revert s. induction training as [|[[u m] r] rest IH]; intros s Hl; cbn [for_each].
  - by intros [= <-].
  - unfold bind at 1. destruct (add_rating (u, m, r) s) as [[e|[]] s1] eqn:H1; [done|].
    apply IH. by apply (add_rating_loading u m r s).
Qed.

(** A constructed object is consistent, and its caches are empty. *)
Theorem load_loading movies training s :
  load movies training = inr s -> loading s.
Proof.
  unfold load, init.
  destruct (for_each_add_movie_loading movies empty_state loading_empty eq_refl)
    as (s1 & H1 & Hl1).
  rewrite (bind_inr _ _ _ _ _ H1).
  destruct (for_each add_rating training s1) as [[e|[]] s2] eqn:H2; [done|].
  intros [= <-]. by apply (for_each_add_rating_loading training s1).
Qed.

Theorem load_consistent movies training s :
  load movies training = inr s -> consistent s.
Proof. intros H. by apply loading_consistent, (load_loading movies training). Qed.

(** ** Every call keeps the object consistent *)

Lemma predict_rating_cases s u i :
  consistent s ->
  (exists p, predict_rating u i s = (inr p, s) /\
             exists d, user_dict s !! u = Some d /\ dict_get d i = Some p) \/
  (exists d, user_dict s !! u = Some d /\ is_Some (movie_dict s !! i) /\
             dict_get d i = None /\
             predict_rating u i s =
             (inr (prediction_of (loop_sums s i d (dict_keys d) (0%Q, 0%Q))),
              loop_state s i (dict_keys d))) \/
  ((user_dict s !! u = None \/ movie_dict s !! i = None) /\
   predict_rating u i s = (inl BadInputError, s)).
Proof.
  intros Hs. destruct (user_dict s !! u) as [d|] eqn:Hd; cycle 1.
  { right; right. split; [by left|]. apply predict_rating_bad_input. by left. }
  destruct (movie_dict s !! i) as [mi|] eqn:Hi; cycle 1.
  { right; right. split; [by right|]. apply predict_rating_bad_input. by right. }
  destruct (dict_get d i) as [r|] eqn:Hr.
  - left. exists r. split; [|eauto]. by apply (predict_rating_rated s u i d); eauto.
  - right; left. exists d. split_and!; eauto. apply predict_rating_unrated; eauto.
Qed.

Lemma exec_consistent c s : consistent s -> consistent (exec c s).
Proof.
  intros Hs. destruct c as [u i | a b]; simpl.
  - destruct (predict_rating_cases s u i Hs)
      as [(p & -> & _) | [(d & Hd & Hi & Hr & ->) | (_ & ->)]]; try done.
    by apply consistent_loop_state.
  - destruct (movie_dict s !! a) as [ma|] eqn:Ha.
    + rewrite (bind_inr _ _ _ _ _ (movie_obj_Some _ _ _ Ha)).
      rewrite get_similarity_spec by eauto. by apply consistent_similarity_state; eauto.
    + by rewrite (bind_inl _ _ _ _ _ (movie_obj_None _ _ Ha)).
Qed.

Lemma exec_cache c s x y w :
  consistent s -> cache s x y = Some w -> cache (exec c s) x y = Some w.
Proof.
  intros Hs Hw. destruct c as [u i | a b]; simpl.
  - destruct (predict_rating_cases s u i Hs)
      as [(p & -> & _) | [(d & Hd & Hi & Hr & ->) | (_ & ->)]]; try done.
    by apply cache_loop_state.
  - destruct (movie_dict s !! a) as [ma|] eqn:Ha.
    + rewrite (bind_inr _ _ _ _ _ (movie_obj_Some _ _ _ Ha)).
      rewrite get_similarity_spec by eauto. by apply cache_similarity_state; eauto.
    + by rewrite (bind_inl _ _ _ _ _ (movie_obj_None _ _ Ha)).
Qed.

Lemma run_consistent cs s : consistent s -> consistent (run cs s).
Proof.
  revert s. induction cs as [|c cs IH]; intros s Hs; [done|].
  apply IH. by apply exec_consistent.
Qed.

Lemma run_cache cs s x y w :
  consistent s -> cache s x y = Some w -> cache (run cs s) x y = Some w.
Proof.
  revert s. induction cs as [|c cs IH]; intros s Hs Hw; [done|].
  apply IH; [by apply exec_consistent | by apply exec_cache].
Qed.

(** ** Sums of rationals *)

Lemma fold_left_Qsum {A} (f : A -> Q) (l : list A) (t0 : Q) :
  (fold_left (fun t x => t + f x) l t0 == t0 + Qsum (map f l))%Q.
Proof.
  revert t0. induction l as [|x l IH]; intros t0; simpl.
  - ring.
  - rewrite IH. ring.
Qed.


Lemma Qsum_nonneg (l : list Q) : (forall x, x ∈ l -> (0 <= x)%Q) -> (0 <= Qsum l)%Q.
Proof.
  induction l as [|x l IH]; intros H; simpl.
  - apply Qle_refl.
  - assert (0 <= x)%Q by (apply H; by left).
    assert (0 <= Qsum l)%Q by (apply IH; intros; apply H; by right).
    unfold Qsum in *. lra.
Qed.

(** ** The similarity as an average *)

Lemma similarity_value_over s a b :
  (similarity_value s a b == similarity_over s a b (common_raters s a b))%Q.
Proof.
  unfold similarity_value, similarity_over, total_abs_diff.
  destruct (common_raters s a b) as [|u us]; [reflexivity|].
  rewrite fold_left_Qsum. by rewrite Qplus_0_l.
Qed.


Lemma common_raters_elem s a b u :
  u ∈ common_raters s a b <-> u ∈ raters s a /\ u ∈ raters s b.
Proof. unfold common_raters. rewrite list_elem_of_filter. tauto. Qed.


(** The mean absolute difference over a non-empty list is not negative. *)
Lemma mean_abs_diff_nonneg s a b u us :
  (0 <= Qsum (map (abs_diff s a b) (u :: us)) / inject_Z (Z.of_nat (length (u :: us))))%Q.
Proof.
  set (n := inject_Z (Z.of_nat (length (u :: us)))).
  set (t := Qsum (map (abs_diff s a b) (u :: us))).
  assert (Ht : (0 <= t)%Q).
  { apply Qsum_nonneg. intros x (u' & -> & _)%list_elem_of_fmap. apply Qabs_nonneg. }
  assert (Hn : (0 < n)%Q).
  { unfold n. change 0%Q with (inject_Z 0). rewrite <- Zlt_Qlt. simpl length. lia. }
  apply Qle_shift_div_l; [done|]. by rewrite Qmult_0_l.
Qed.

Lemma similarity_over_le_1 s a b us : (similarity_over s a b us <= 1)%Q.
Proof.
  unfold similarity_over. destruct us as [|u us]; [done|].
  pose proof (mean_abs_diff_nonneg s a b u us) as Hm.
  set (q := (Qsum (map (abs_diff s a b) (u :: us)) /
             inject_Z (Z.of_nat (length (u :: us))))%Q) in *.
  assert (0 <= q / (45 # 10))%Q.
  { apply Qle_shift_div_l; [done|]. by rewrite Qmult_0_l. }
  lra.
Qed.

(** The similarity has no lower bound: ratings are not validated. *)
Lemma similarity_unbounded_below (L : Q) :
  exists training s v,
    load demo_movies training = inr s /\
    (compute_similarity 1 2 s).1 = inr v /\ (v < L)%Q.
Proof.
  set (r := ((45 # 10) * (2 + Qabs L))%Q).
  exists [(1, 1, 0%Q); (1, 2, r)].
  eexists. eexists. split; [reflexivity|].
  split; [reflexivity|].
  cbn [fst snd]. change (inject_Z (0 + 1)) with 1%Q.
  pose proof (Qabs_nonneg L) as Ht.
  assert (Hr : (0 <= r)%Q) by (unfold r; lra).
  assert (Habs : (Qabs (0 - r) == r)%Q).
  { rewrite <- Qabs_opp. assert (- (0 - r) == r)%Q as -> by ring. by apply Qabs_pos. }
  rewrite Habs.
  pose proof (Qle_Qabs (- L)) as HL. rewrite Qabs_opp in HL.
  assert ((0 + r) / 1 / (45 # 10) == 2 + Qabs L)%Q as -> by (unfold r; field).
  lra.
Qed.

(** ** [BadInputError] is caught inside [get_similarity] *)

Lemma no_bad_input_ret {A} (a : A) : no_bad_input (ret a).
Proof. by intros s. Qed.

Lemma no_bad_input_bind {A B} (m : M A) (f : A -> M B) :
  no_bad_input m -> (forall a, no_bad_input (f a)) -> no_bad_input (bind m f).
Proof.
  intros Hm Hf s. unfold bind. specialize (Hm s).
  destruct (m s) as [[e|a] s1]; simpl in *; [congruence | apply Hf].
Qed.

Lemma no_bad_input_getitem {V} (d : gmap Z V) k : no_bad_input (getitem d k).
Proof. intros s. unfold getitem. by destruct (d !! k). Qed.

Lemma no_bad_input_dict_getitem d k : no_bad_input (dict_getitem d k).
Proof. intros s. unfold dict_getitem. by destruct (dict_get d k). Qed.

Lemma no_bad_input_movie_obj a : no_bad_input (movie_obj a).
Proof.
  apply no_bad_input_bind; [by intros s | intros; apply no_bad_input_getitem].
Qed.

Lemma no_bad_input_py_mul x y : no_bad_input (py_mul x y).
Proof. intros s. by destruct y. Qed.

Lemma no_bad_input_py_add x y : no_bad_input (py_add x y).
Proof. intros s. by destruct y. Qed.

(** The [except BadInputError: pass] of [get_similarity] catches every
    [BadInputError] raised inside it. *)
Lemma no_bad_input_get_similarity a b : no_bad_input (get_similarity a b).
Proof.
  intros s. unfold get_similarity, try_except.
  match goal with |- context [bind ?m ?f s] => destruct (bind m f s) as [[e|r] s1] end;
    [|done].
  by destruct e.
Qed.

Lemma no_bad_input_predict_loop i d keys acc : no_bad_input (predict_loop i d keys acc).
Proof.
  revert acc. induction keys as [|m rest IH]; intros acc; cbn [predict_loop].
  - apply no_bad_input_ret.
  - repeat (apply no_bad_input_bind;
            [auto using no_bad_input_dict_getitem, no_bad_input_movie_obj,
               no_bad_input_get_similarity, no_bad_input_py_mul, no_bad_input_py_add
            | intros]).
    apply IH.
Qed.

(** ** The batch *)

Lemma predict_rating_total s u i :
  consistent s -> is_Some (user_dict s !! u) -> is_Some (movie_dict s !! i) ->
  exists p, (predict_rating u i s).1 = inr p.
Proof.
  intros Hs [d Hd] [mi Hi].
  destruct (predict_rating_cases s u i Hs)
    as [(p & -> & _) | [(d' & _ & _ & _ & ->) | ([H|H] & _)]]; eauto; congruence.
Qed.

Lemma catalog_eq_title s s' k :
  catalog s' = catalog s ->
  Movie.title <$> movie_dict s' !! k = Movie.title <$> movie_dict s !! k.
Proof.
  intros H. destruct (movie_dict s' !! k) as [m'|] eqn:Hm'.
  - destruct (catalog_eq_record _ _ _ _ H Hm') as (m & -> & Hr).
    unfold item_record in Hr. simpl. congruence.
  - destruct (movie_dict s !! k) as [m|] eqn:Hm; [|done].
    assert (is_Some (movie_dict s' !! k)) as [? ?]
      by (apply (catalog_eq_known s s' k H); eauto).
    congruence.
Qed.

(** The state after a batch does not depend on the list built so far. *)
Lemma predict_ratings_loop_state lines acc acc' s :
  (predict_ratings_loop lines acc s).2 = (predict_ratings_loop lines acc' s).2.
Proof.
  revert acc acc' s. induction lines as [|[[u m] actual] rest IH]; intros acc acc' s; [done|].
  cbn [predict_ratings_loop]. unfold bind, get_state, getitem.
  destruct (predict_rating u m s) as [[e|p] s1]; [done|].
  destruct (movie_dict s1 !! m) as [mv|]; [apply IH | done].
Qed.

Lemma predict_ratings_loop_spec lines s acc :
  consistent s ->
  (forall u m actual, (u, m, actual) ∈ lines ->
     is_Some (user_dict s !! u) /\ is_Some (movie_dict s !! m)) ->
  exists out s',
    predict_ratings_loop lines acc s = (inr (acc ++ out), s') /\
    length out = length lines /\
    forall k u m actual, lines !! k = Some (u, m, actual) ->
      exists ttl p,
        Movie.title <$> movie_dict s !! m = Some ttl /\
        (predict_rating u m (predict_ratings (take k lines) s).2).1 = inr p /\
        out !! k = Some (u, ttl, p, actual).
Proof.
  revert s acc. induction lines as [|[[u m] actual] rest IH]; intros s acc Hs Hknown.
  - exists [], s. split_and!; [by rewrite app_nil_r | done | intros; done].
  - destruct (Hknown u m actual) as [Hu Hm]; [by left|].
    destruct (predict_rating_total s u m Hs Hu Hm) as [p Hp].
    destruct (predict_rating u m s) as [r s1] eqn:Hrun. simpl in Hp. subst r.
    assert (Hs1 : consistent s1).
    { pose proof (exec_consistent (Predict u m) s Hs) as H1.
      simpl in H1. by rewrite Hrun in H1. }
    destruct (keeps_predict_rating u m s) as [Hud Hcat]. rewrite Hrun in Hud, Hcat.
    simpl in Hud, Hcat.
    assert (Hm1 : is_Some (movie_dict s1 !! m)) by by apply (catalog_eq_known s s1).
    destruct Hm1 as [mv Hmv].
    destruct (IH s1 (acc ++ [(u, Movie.title mv, p, actual)]) Hs1) as (out & s' & Hout & Hlen & Hnth).
    { intros u' m' actual' Hin. destruct (Hknown u' m' actual') as [? ?]; [by right|].
      rewrite Hud. split; [done|]. by apply (catalog_eq_known s s1). }
    exists ((u, Movie.title mv, p, actual) :: out), s'. split_and!.
    + cbn [predict_ratings_loop]. rewrite (bind_inr _ _ _ _ _ Hrun).
      unfold bind at 1. unfold get_state.
      rewrite (bind_inr _ _ _ _ _ (getitem_Some _ _ _ s1 Hmv)).
      rewrite Hout. by rewrite <- app_assoc.
    + simpl. by rewrite Hlen.
    + intros [|k] u' m' actual' Hk.
      * injection Hk as <- <- <-. exists (Movie.title mv), p. split_and!.
        -- rewrite <- (catalog_eq_title s s1 m Hcat). by rewrite Hmv.
        -- simpl. by rewrite Hrun.
        -- done.
      * destruct (Hnth k u' m' actual' Hk) as (ttl & p' & Httl & Hp' & Hout').
        exists ttl, p'. split_and!.
        -- by rewrite <- (catalog_eq_title s s1 m' Hcat).
        -- assert ((predict_ratings (take (S k) ((u, m, actual) :: rest)) s).2 =
                   (predict_ratings (take k rest) s1).2) as ->; [|done].
           unfold predict_ratings. cbn [take predict_ratings_loop].
           rewrite (bind_inr _ _ _ _ _ Hrun).
           unfold bind at 1. unfold get_state.
           rewrite (bind_inr _ _ _ _ _ (getitem_Some _ _ _ s1 Hmv)).
           apply predict_ratings_loop_state.
        -- done.
Qed.

(** ** Runs, dictionaries and the loaded scenarios *)

Lemma exec_stores c s :
  user_dict (exec c s) = user_dict s /\ catalog (exec c s) = catalog s.
Proof.
  destruct c as [u i | a b]; simpl.
  - apply keeps_predict_rating.
  - apply (keeps_bind (movie_obj a) (fun _ => get_similarity a b));
      [apply keeps_movie_obj | intros; apply keeps_get_similarity].
Qed.

Lemma run_stores cs s :
  user_dict (run cs s) = user_dict s /\ catalog (run cs s) = catalog s.
Proof.
  revert s. induction cs as [|c cs IH]; intros s; [done|].
  simpl. destruct (IH (exec c s)) as [-> ->]. apply exec_stores.
Qed.

Lemma demo_consistent : consistent demo_state.
Proof. by apply (load_consistent demo_movies demo_training). Qed.

(** * The properties of the specification *)




(** The scenario of the specification: [similarity(1, 2)] is 5/9, and
    [predict(1, 3)] has weight sum 0 and is 2.5. *)
Example demo_scenario :
  (get_similarity 1 2 demo_state).1 = inr (Some (50 # 90)%Q) /\
  (predict_rating 1 3 demo_state).1 = inr (25 # 10)%Q.
Proof. split; reflexivity. Qed.

(** C3 (the code departs from it).  [get_similarity] on movie 1 of the
    scenario with the unknown movie 99: the [BadInputError] raised inside is
    caught by the method itself, which returns [None] and changes nothing. *)
Theorem get_similarity_unknown_item_swallowed :
  movie_dict demo_state !! 99 = None /\ cache demo_state 1 99 = None /\
  get_similarity 1 99 demo_state = (inr None, demo_state).
Proof. split_and!; reflexivity. Qed.

(** C4.  On an object built by [__init__], after any calls, for known movies
    [a] and [b]: a call of [get_similarity a b] returns a value [v] that is
    then in the cache of [a] under [b] and in the cache of [b] under [a];
    after any further calls, [get_similarity a b] and [get_similarity b a]
    both return [v] and change nothing, not even the count of computations;
    and the similarity of the pair was computed at most once in the whole
    run. *)
Theorem similarity_memoized movies training s0 before after a b :
  load movies training = inr s0 ->
  is_Some (movie_dict s0 !! a) -> is_Some (movie_dict s0 !! b) ->
  let s := run before s0 in
  let s1 := (get_similarity a b s).2 in
  let s2 := run after s1 in
  exists v,
    (get_similarity a b s).1 = inr (Some v) /\
    cache s1 a b = Some v /\ cache s1 b a = Some v /\
    get_similarity a b s2 = (inr (Some v), s2) /\
    get_similarity b a s2 = (inr (Some v), s2) /\
    (times_computed a b s2 <= 1)%nat.
Proof.
  intros Hload Ha0 Hb0 s s1 s2.
  assert (Hs : consistent s) by (apply run_consistent, (load_consistent movies training); done).
  destruct (run_stores before s0) as [_ Hcat]. fold s in Hcat.
  assert (Ha : is_Some (movie_dict s !! a)) by by apply (catalog_eq_known s0 s).
  assert (Hb : is_Some (movie_dict s !! b)) by by apply (catalog_eq_known s0 s).
  assert (Hs1 : consistent s1).
  { unfold s1. rewrite get_similarity_spec by done. by apply consistent_similarity_state. }
  destruct (similarity_result_known s a b Hb) as [v Hv].
  assert (Hab : cache s1 a b = Some v).
  { unfold s1. rewrite get_similarity_spec by done. simpl.
    rewrite <- Hv. by apply cache_after_similarity. }
  assert (Hba : cache s1 b a = Some v) by by apply (cache_symmetric s1 Hs1).
  exists v. split_and!; try done.
  - rewrite get_similarity_spec by done. simpl. by rewrite Hv.
  - apply get_similarity_hit. unfold s2. by apply run_cache.
  - apply get_similarity_hit. unfold s2. by apply run_cache.
  - apply (computed_once s2). unfold s2. by apply run_consistent.
Qed.

Lemma similarity_memoized_witness :
  load demo_movies demo_training = inr demo_state /\
  is_Some (movie_dict demo_state !! 1) /\ is_Some (movie_dict demo_state !! 2) /\
  let s := run [Predict 1 3] demo_state in
  let s1 := (get_similarity 1 2 s).2 in
  let s2 := run [Similarity 2 1; Predict 2 3] s1 in
  exists v,
    (get_similarity 1 2 s).1 = inr (Some v) /\
    cache s1 1 2 = Some v /\ cache s1 2 1 = Some v /\
    get_similarity 1 2 s2 = (inr (Some v), s2) /\
    get_similarity 2 1 s2 = (inr (Some v), s2) /\
    (times_computed 1 2 s2 <= 1)%nat.
Proof.
  assert (H1 : is_Some (movie_dict demo_state !! 1)) by (eexists; reflexivity).
  assert (H2 : is_Some (movie_dict demo_state !! 2)) by (eexists; reflexivity).
  split_and!; [reflexivity | exact H1 | exact H2 |].
  exact (similarity_memoized demo_movies demo_training demo_state
           [Predict 1 3] [Similarity 2 1; Predict 2 3] 1 2 eq_refl H1 H2).
Defined.

(** C5.  For a known user who has rated the known movie [i], [predict_rating]
    returns exactly the stored rating, and no similarity is computed on the
    way. *)
Theorem predict_rating_returns_stored_rating s u i d r :
  user_dict s !! u = Some d -> is_Some (movie_dict s !! i) -> dict_get d i = Some r ->
  (predict_rating u i s).1 = inr r /\
  computations (predict_rating u i s).2 = computations s.
Proof. intros Hd Hi Hr. by rewrite (predict_rating_rated s u i d r). Qed.

Lemma predict_rating_returns_stored_rating_witness :
  user_dict demo_state !! 1 = Some [(1, 5%Q); (2, 3%Q)] /\
  is_Some (movie_dict demo_state !! 2) /\
  dict_get [(1, 5%Q); (2, 3%Q)] 2 = Some 3%Q /\
  (predict_rating 1 2 demo_state).1 = inr 3%Q /\
  computations (predict_rating 1 2 demo_state).2 = computations demo_state.
Proof.
  assert (H2 : is_Some (movie_dict demo_state !! 2)) by (eexists; reflexivity).
  split_and!; [reflexivity | exact H2 | reflexivity | |];
    apply (predict_rating_returns_stored_rating demo_state 1 2 [(1, 5%Q); (2, 3%Q)] 3%Q
             eq_refl H2 eq_refl).
Defined.

(** C6.  In every state, [predict_rating] raises [BadInputError] exactly when
    the user is not in [user_dict] or the movie is not in [movie_dict]. *)
Theorem predict_rating_bad_input_iff s u i :
  (predict_rating u i s).1 = inl BadInputError <->
  user_dict s !! u = None \/ movie_dict s !! i = None.
Proof.
  split; [|intros H; by rewrite predict_rating_bad_input].
  unfold predict_rating. unfold bind at 1. unfold get_state.
  destruct (user_dict s !! u) as [d|]; [|by left].
  destruct (movie_dict s !! i) as [mi|]; [|by right].
  destruct (dict_get d i) as [r|]; [done|].
  intros H. exfalso. revert H.
  apply (no_bad_input_bind (predict_loop i d (dict_keys d) (0%Q, 0%Q))).
  - apply no_bad_input_predict_loop.
  - intros [n dn]. destruct (Qeq_bool dn 0); apply no_bad_input_ret.
Qed.

(** C7 (as amended).  In a consistent state, for every sequence of query
    records whose users and movies are all known, [predict_ratings] returns a
    list of the same length, and its element at each position is (the
    record's user, the title of the record's movie, what [predict_rating]
    returns for that user and movie once the earlier records have been
    predicted, the record's actual rating). *)
Theorem predict_ratings_known_records s lines :
  consistent s ->
  (forall u m actual, (u, m, actual) ∈ lines ->
     is_Some (user_dict s !! u) /\ is_Some (movie_dict s !! m)) ->
  exists out,
    (predict_ratings lines s).1 = inr out /\
    length out = length lines /\
    forall k u m actual, lines !! k = Some (u, m, actual) ->
      exists ttl p,
        Movie.title <$> movie_dict s !! m = Some ttl /\
        (predict_rating u m (predict_ratings (take k lines) s).2).1 = inr p /\
        out !! k = Some (u, ttl, p, actual).
Proof.
  intros Hs Hknown.
  destruct (predict_ratings_loop_spec lines s [] Hs Hknown) as (out & s' & Hout & Hlen & Hnth).
  exists out. unfold predict_ratings at 1. rewrite Hout. done.
Qed.

Lemma predict_ratings_known_records_witness :
  consistent demo_state /\
  (forall u m actual, (u, m, actual) ∈ [(1, 3, 2%Q); (2, 1, 1%Q)] ->
     is_Some (user_dict demo_state !! u) /\ is_Some (movie_dict demo_state !! m)) /\
  exists out,
    (predict_ratings [(1, 3, 2%Q); (2, 1, 1%Q)] demo_state).1 = inr out /\
    length out = length [(1, 3, 2%Q); (2, 1, 1%Q)] /\
    forall k u m actual, [(1, 3, 2%Q); (2, 1, 1%Q)] !! k = Some (u, m, actual) ->
      exists ttl p,
        Movie.title <$> movie_dict demo_state !! m = Some ttl /\
        (predict_rating u m
           (predict_ratings (take k [(1, 3, 2%Q); (2, 1, 1%Q)]) demo_state).2).1 = inr p /\
        out !! k = Some (u, ttl, p, actual).
Proof.
  assert (Hknown : forall u m actual, (u, m, actual) ∈ [(1, 3, 2%Q); (2, 1, 1%Q)] ->
            is_Some (user_dict demo_state !! u) /\ is_Some (movie_dict demo_state !! m)).
  { intros u m actual Hin.
    apply elem_of_cons in Hin as [Hin|Hin]; [injection Hin as -> -> ->; split; eexists; reflexivity|].
    apply elem_of_cons in Hin as [Hin|Hin]; [injection Hin as -> -> ->; split; eexists; reflexivity|].
    by apply elem_of_nil in Hin. }
  split_and!; [apply demo_consistent | exact Hknown |].
  exact (predict_ratings_known_records demo_state [(1, 3, 2%Q); (2, 1, 1%Q)]
           demo_consistent Hknown).
Defined.

(** C7 as stated fails on a record whose user is unknown: [predict_rating]
    raises [BadInputError], nothing catches it, and no list is returned. *)
Lemma predict_ratings_unknown_user_raises :
  user_dict demo_state !! 99 = None /\
  predict_ratings [(99, 1, 3%Q)] demo_state = (inl BadInputError, demo_state) /\
  ~ exists out, (predict_ratings [(99, 1, 3%Q)] demo_state).1 = inr out /\
                length out = length [(99, 1, 3%Q)].
Proof.
  split_and!; [reflexivity | reflexivity |].
  intros (out & Hout & _). discriminate Hout.
Qed.

(** C8.  In every state, whatever they return or raise, [predict_rating] and
    [get_similarity] leave [user_dict] as it is, and in [movie_dict] the set
    of keys and the id, title and list of raters of every movie: only the
    [similarities] of movies can differ afterwards. *)
Theorem stores_unchanged s u i a b :
  (user_dict (predict_rating u i s).2 = user_dict s /\
   catalog (predict_rating u i s).2 = catalog s /\
   dom (movie_dict (predict_rating u i s).2) = dom (movie_dict s)) /\
  (user_dict (get_similarity a b s).2 = user_dict s /\
   catalog (get_similarity a b s).2 = catalog s /\
   dom (movie_dict (get_similarity a b s).2) = dom (movie_dict s)).
Proof.
  assert (Hdom : forall s1 s2, catalog s1 = catalog s2 ->
                   dom (movie_dict s1) = dom (movie_dict s2)).
  { intros s1 s2 H. rewrite <- (dom_fmap_L item_record (movie_dict s1)).
    rewrite <- (dom_fmap_L item_record (movie_dict s2)). unfold catalog in H. by rewrite H. }
  destruct (keeps_predict_rating u i s) as [Hu Hc].
  destruct (keeps_get_similarity a b s) as [Hu' Hc'].
  split_and!; auto.
Qed.

(** C9.  In a consistent state, for known movies, the value computed by
    [compute_similarity] is at most 1: it is 0 when no rater of [a] is a
    rater of [b], and otherwise 1 minus a quantity that is not negative,
    divided by 4.5.  There is no lower bound: below every rational there is
    a similarity computed on some loaded object. *)
Theorem similarity_at_most_one s a b :
  consistent s -> is_Some (movie_dict s !! a) -> is_Some (movie_dict s !! b) ->
  (exists v,
     (compute_similarity a b s).1 = inr v /\ (v <= 1)%Q /\
     (common_raters s a b = [] -> v = 0%Q) /\
     (common_raters s a b <> [] ->
      exists q, (0 <= q)%Q /\ (v == 1 - q / (45 # 10))%Q)) /\
  (forall L : Q, exists training s' v',
     load demo_movies training = inr s' /\
     (compute_similarity 1 2 s').1 = inr v' /\ (v' < L)%Q).
Proof.
  intros Hs Ha Hb. split; [|apply similarity_unbounded_below].
  exists (similarity_value s a b). split_and!.
  - by rewrite compute_similarity_spec.
  - rewrite similarity_value_over. apply similarity_over_le_1.
  - intros H. unfold similarity_value. by rewrite H.
  - intros Hne. pose proof (similarity_value_over s a b) as Hv.
    unfold similarity_over in Hv.
    destruct (common_raters s a b) as [|u0 us]; [done|].
    eexists. split; [apply (mean_abs_diff_nonneg s a b u0 us) | exact Hv].
Qed.

Lemma similarity_at_most_one_witness :
  consistent demo_state /\ is_Some (movie_dict demo_state !! 1) /\
  is_Some (movie_dict demo_state !! 2) /\
  (exists v,
     (compute_similarity 1 2 demo_state).1 = inr v /\ (v <= 1)%Q /\
     (common_raters demo_state 1 2 = [] -> v = 0%Q) /\
     (common_raters demo_state 1 2 <> [] ->
      exists q, (0 <= q)%Q /\ (v == 1 - q / (45 # 10))%Q)) /\
  (forall L : Q, exists training s' v',
     load demo_movies training = inr s' /\
     (compute_similarity 1 2 s').1 = inr v' /\ (v' < L)%Q).
Proof.
  assert (H1 : is_Some (movie_dict demo_state !! 1)) by (eexists; reflexivity).
  assert (H2 : is_Some (movie_dict demo_state !! 2)) by (eexists; reflexivity).
  split_and!; [apply demo_consistent | exact H1 | exact H2 | |];
    apply (similarity_at_most_one demo_state 1 2 demo_consistent H1 H2).
Defined.

(** C10.  For a known user who has rated the known movie [i], the call of
    [predict_rating] leaves the [similarities] of every movie as they were. *)
Theorem predict_rating_rated_keeps_caches s u i d r :
  user_dict s !! u = Some d -> is_Some (movie_dict s !! i) -> dict_get d i = Some r ->
  forall k,
    Movie.similarities <$> movie_dict (predict_rating u i s).2 !! k =
    Movie.similarities <$> movie_dict s !! k.
Proof. intros Hd Hi Hr k. by rewrite (predict_rating_rated s u i d r). Qed.

Lemma predict_rating_rated_keeps_caches_witness :
  user_dict demo_state !! 2 = Some [(1, 4%Q); (2, 2%Q)] /\
  is_Some (movie_dict demo_state !! 1) /\
  dict_get [(1, 4%Q); (2, 2%Q)] 1 = Some 4%Q /\
  forall k,
    Movie.similarities <$> movie_dict (predict_rating 2 1 demo_state).2 !! k =
    Movie.similarities <$> movie_dict demo_state !! k.
Proof.
  assert (H1 : is_Some (movie_dict demo_state !! 1)) by (eexists; reflexivity).
  split_and!; [reflexivity | exact H1 | reflexivity |].
  exact (predict_rating_rated_keeps_caches demo_state 2 1 [(1, 4%Q); (2, 2%Q)] 4%Q
           eq_refl H1 eq_refl).
Defined.

(** * Further properties of the code *)

(** Closed facts about the scenarios are settled by evaluation. *)
Ltac evaluated := vm_compute; first [reflexivity | by eexists | discriminate].

Lemma demo_loaded : load demo_movies demo_training = inr demo_state.
Proof. evaluated. Qed.

Lemma sample_loaded : load demo_movies sample_training = inr sample_state.
Proof. evaluated. Qed.

Lemma sample_consistent : consistent sample_state.
Proof. apply (load_consistent demo_movies sample_training), sample_loaded. Qed.

(** ** What [__init__] builds from its two files *)

Lemma for_each_invariant {A} (f : A -> M unit) (I : list A -> state -> Prop) :
  (forall pre x s s', I pre s -> f x s = (inr tt, s') -> I (pre ++ [x]) s') ->
  forall l pre s s', I pre s -> for_each f l s = (inr tt, s') -> I (pre ++ l) s'.
Proof.
  intros Hstep l. induction l as [|x l IH]; intros pre s s' HI; cbn [for_each].
  - intros [= <-]. by rewrite app_nil_r.
  - unfold bind at 1. destruct (f x s) as [[e|[]] s1] eqn:Hx; [done|].
    intros Hl. rewrite (cons_middle x pre l), app_assoc.
    apply (IH _ s1); [|done]. by apply (Hstep pre x s).
Qed.

Lemma last_filter_snoc {A} (P : A -> Prop) `{!forall x, Decision (P x)} (l : list A) x :
  last (filter P (l ++ [x])) = if decide (P x) then Some x else last (filter P l).
Proof.
  rewrite filter_app, filter_cons, filter_nil.
  case_decide; [apply last_snoc | by rewrite app_nil_r].
Qed.

Lemma add_movie_read pre line s s' :
  movies_read pre s -> add_movie line s = (inr tt, s') -> movies_read (pre ++ [line]) s'.
Proof.
  intros [Hu Hc Hm] [= <-]. split; simpl; [done | done |].
  intros k. unfold movie_lines. rewrite last_filter_snoc, lookup_insert.
  destruct (decide (line.1 = k)) as [<-|Hk]; [done|]. apply Hm.
Qed.

Lemma movies_read_start movies s :
  movies_read movies s -> ratings_read movies [] s.
Proof.
  intros [Hu Hc Hm]. split; [done| |].
  - intros k. rewrite Hm. by destruct (last (movie_lines k movies)).
  - intros u m. unfold rating_of. by rewrite Hu, lookup_empty.
Qed.

Lemma add_rating_read movies pre line s s' :
  ratings_read movies pre s -> add_rating line s = (inr tt, s') ->
  ratings_read movies (pre ++ [line]) s'.
Proof.
  destruct line as [[u m] r]. intros [Hc Hm Hr].
  unfold add_rating, bind, get_state, put_state, getitem. simpl.
  destruct (movie_dict s !! m) as [a|] eqn:Ha; [|done]. simpl. intros [= <-].
  split; simpl; [done | |].
  - intros k. unfold lines_of_movie. rewrite filter_app, filter_cons, filter_nil.
    rewrite lookup_insert. simpl.
    destruct (decide (m = k)) as [<-|Hk].
    + rewrite Hm in Ha. destruct (last (movie_lines m movies)) as [l|]; [|done].
      simpl in Ha. injection Ha as <-. simpl. by rewrite map_app.
    + rewrite app_nil_r. apply Hm.
  - intros u' m'. unfold lines_of_pair. rewrite last_filter_snoc.
    fold (lines_of_pair u' m' pre). cbn [fst snd].
    assert (Hold : (fun t : Z * Z * Q => t.2) <$>
                     (if decide (u = u' /\ m = m') then Some (u, m, r)
                      else last (lines_of_pair u' m' pre)) =
                   if decide (u = u' /\ m = m') then Some r else rating_of s u' m').
    { case_decide; [done | by rewrite Hr]. }
    rewrite Hold. clear Hold. unfold rating_of. simpl.
    destruct (decide (u = u')) as [<-|Hu].
    + assert (forall d', (match user_dict s !! u with
                          | Some d => <[u := dict_set d m r]> (user_dict s)
                          | None => <[u := [(m, r)]]> (user_dict s)
                          end) !! u = Some d' ->
                dict_get d' m' =
                if decide (m = m') then Some r
                else match user_dict s !! u with Some d => dict_get d m' | None => None end)
        as Hget.
      { intros d'. destruct (user_dict s !! u) as [d|]; rewrite lookup_insert_eq;
          intros [= <-]; [apply dict_get_set|].
        simpl. by destruct (decide (m = m')). }
      destruct (_ !! u) as [d'|] eqn:Hd'.
      * rewrite (Hget d' eq_refl).
        destruct (decide (m = m')) as [<-|Hm']; [by rewrite decide_True|].
        rewrite decide_False; [done | by intros [_ ?]].
      * destruct (user_dict s !! u); by rewrite lookup_insert_eq in Hd'.
    + rewrite decide_False by (by intros [? _]).
      destruct (user_dict s !! u); by rewrite lookup_insert_ne.
Qed.

Lemma movies_read_empty : movies_read [] empty_state.
Proof. split; done. Qed.

Lemma for_each_add_movie_total movies s :
  exists s', for_each add_movie movies s = (inr tt, s').
Proof.
  revert s. induction movies as [|line rest IH]; intros s; cbn [for_each].
  - by exists s.
  - unfold bind at 1. unfold add_movie at 1. unfold bind, get_state, put_state. apply IH.
Qed.

(** A loaded object is the state of the second loop after the whole
    training file. *)
Lemma load_ratings_read movies training s :
  load movies training = inr s -> ratings_read movies training s.
Proof.
  unfold load, init.
  destruct (for_each_add_movie_total movies empty_state) as [s1 H1].
  rewrite (bind_inr _ _ _ _ _ H1).
  destruct (for_each add_rating training s1) as [[e|[]] s2] eqn:H2; [done|].
  intros [= <-].
  apply (for_each_invariant add_rating (ratings_read movies)
           (add_rating_read movies) training [] s1 s2); [|done].
  apply movies_read_start.
  apply (for_each_invariant add_movie movies_read add_movie_read movies [] empty_state s1);
    [apply movies_read_empty | done].
Qed.

Lemma movie_lines_known movies k :
  is_Some (last (movie_lines k movies)) <-> k ∈ map fst movies.
Proof.
  rewrite last_is_Some. unfold movie_lines. split.
  - intros Hne. destruct (filter _ movies) as [|l ls] eqn:Hf; [done|].
    assert (Hl : l ∈ filter (fun l : Z * string => l.1 = k) movies) by (rewrite Hf; by left).
    apply list_elem_of_filter in Hl as [<- Hl]. apply list_elem_of_fmap. by exists l.
  - intros (l & -> & Hl)%list_elem_of_fmap Hnil.
    assert (Hl' : l ∈ filter (fun l' : Z * string => l'.1 = l.1) movies)
      by (by apply list_elem_of_filter).
    rewrite Hnil in Hl'. by apply elem_of_nil in Hl'.
Qed.

Lemma ratings_read_known movies pre s k :
  ratings_read movies pre s -> is_Some (movie_dict s !! k) <-> k ∈ map fst movies.
Proof.
  intros [_ Hm _]. rewrite Hm, <- movie_lines_known.
  destruct (last (movie_lines k movies)); simpl; split; intros [? ?]; eauto; done.
Qed.

Lemma add_rating_outcome u m r s :
  (is_Some (movie_dict s !! m) -> exists s', add_rating (u, m, r) s = (inr tt, s')) /\
  (movie_dict s !! m = None -> (add_rating (u, m, r) s).1 = inl KeyError).
Proof.
  unfold add_rating, bind, get_state, put_state, getitem. simpl.
  split; [intros [a ->]; eauto | by intros ->].
Qed.

Lemma for_each_add_rating_outcome movies training pre s :
  ratings_read movies pre s ->
  ((forall t, t ∈ training -> t.1.2 ∈ map fst movies) ->
   exists s', for_each add_rating training s = (inr tt, s')) /\
  (forall e, (for_each add_rating training s).1 = inl e ->
   e = KeyError /\ exists t, t ∈ training /\ t.1.2 ∉ map fst movies).
Proof.
  revert pre s. induction training as [|[[u m] r] rest IH]; intros pre s Hs; cbn [for_each].
  - split; [by exists s | done].
  - destruct (add_rating_outcome u m r s) as [Hok Hko].
    destruct (movie_dict s !! m) as [a|] eqn:Ha.
    + destruct Hok as [s1 H1]; [eauto|]. rewrite (bind_inr _ _ _ _ _ H1).
      destruct (IH (pre ++ [(u, m, r)]) s1) as [IHok IHko];
        [by apply (add_rating_read movies pre (u, m, r) s)|].
      split.
      * intros Hall. apply IHok. intros t Ht. apply Hall. by right.
      * intros e He. destruct (IHko e He) as (-> & t & Ht & Hbad).
        split; [done|]. exists t. split; [by right | done].
    + specialize (Hko eq_refl). unfold bind at 1 2.
      destruct (add_rating (u, m, r) s) as [[e'|[]] s1]; simpl in Hko; [|done].
      injection Hko as ->. split.
      * intros Hall. exfalso.
        assert (Hm : is_Some (movie_dict s !! m)).
        { apply (ratings_read_known movies pre s m Hs). apply (Hall (u, m, r)). by left. }
        rewrite Ha in Hm. by destruct Hm.
      * simpl. intros e [= <-]. split; [done|]. exists (u, m, r). split; [by left|].
        simpl. intros Hin. apply (ratings_read_known movies pre s m Hs) in Hin.
        rewrite Ha in Hin. by destruct Hin.
Qed.

Lemma load_outcome movies training :
  ((forall t, t ∈ training -> t.1.2 ∈ map fst movies) ->
   exists s, load movies training = inr s) /\
  (forall e, load movies training = inl e ->
   e = KeyError /\ exists t, t ∈ training /\ t.1.2 ∉ map fst movies).
Proof.
  unfold load, init.
  destruct (for_each_add_movie_total movies empty_state) as [s1 H1].
  rewrite (bind_inr _ _ _ _ _ H1).
  assert (Hs1 : ratings_read movies [] s1).
  { apply movies_read_start.
    apply (for_each_invariant add_movie movies_read add_movie_read movies [] empty_state s1);
      [apply movies_read_empty | done]. }
  destruct (for_each_add_rating_outcome movies training [] s1 Hs1) as [Hok Hko].
  split.
  - intros Hall. destruct (Hok Hall) as [s' ->]. eauto.
  - intros e. destruct (for_each add_rating training s1) as [[e'|[]] s2]; [|done].
    intros [= <-]. by apply Hko.
Qed.

Lemma lines_NoDup_raters training m :
  NoDup (map fst training) ->
  NoDup (map (fun t : Z * Z * Q => t.1.1) (lines_of_movie m training)).
Proof.
  unfold lines_of_movie. induction training as [|t l IH]; simpl; intros Hnd.
  - constructor.
  - apply NoDup_cons in Hnd as [Ht Hnd]. rewrite filter_cons.
    case_decide as Hm; [|by apply IH]. simpl. apply NoDup_cons. split; [|by apply IH].
    intros (t' & Hu & Ht')%list_elem_of_fmap.
    apply list_elem_of_filter in Ht' as [Hm' Ht'].
    apply Ht. apply list_elem_of_fmap. exists t'. split; [|done].
    destruct t as [[u1 m1] r1], t' as [[u2 m2] r2]. simpl in *. congruence.
Qed.

Lemma load_succeeds_iff_aux movies training s :
  load movies training = inr s ->
  forall t, t ∈ training -> is_Some (last (movie_lines t.1.2 movies)).
Proof.
  intros Hl t Ht. apply movie_lines_known.
  destruct (decide (t.1.2 ∈ map fst movies)) as [|Hbad]; [done|]. exfalso.
  pose proof (load_ratings_read movies training s Hl) as Hr.
  pose proof (load_loading movies training s Hl) as Hload.
  assert (Hrt : is_Some (rating_of s t.1.1 t.1.2)).
  { rewrite (rr_ratings _ _ _ Hr).
    assert (Hne : lines_of_pair t.1.1 t.1.2 training <> []).
    { intros Hnil. assert (Ht' : t ∈ lines_of_pair t.1.1 t.1.2 training)
        by (unfold lines_of_pair; by apply list_elem_of_filter).
      rewrite Hnil in Ht'. by apply elem_of_nil in Ht'. }
    apply last_is_Some in Hne as [x ->]. simpl. eauto. }
  apply (l_rated s Hload) in Hrt.
  by apply (ratings_read_known movies training s _ Hr) in Hrt.
Qed.

(** X1.  The two loops of [__init__], on the parsed lines of the two files
    (both files opened, the header lines skipped, every field converted by
    [int] and [float]): they run to the end exactly when the movie of every
    line of the training file occurs in the movies file; otherwise the
    lookup [self.movie_dict[int(line[1])]] raises [KeyError], the only
    exception of the loops on such input.  Opening the files, reading the
    headers and converting the fields is not part of [load]. *)
Theorem load_succeeds_iff movies training :
  ((exists s, load movies training = inr s) <->
   (forall t, t ∈ training -> t.1.2 ∈ map fst movies)) /\
  (forall e, load movies training = inl e -> e = KeyError).
Proof.
  destruct (load_outcome movies training) as [Hok Hko]. split; [split; [|done]|].
  - intros [s Hs] t Ht. by apply movie_lines_known, (load_succeeds_iff_aux movies training s).
  - intros e He. by destruct (Hko e He).
Qed.

(** X2.  On a loaded object, the keys of [movie_dict] are the ids of the
    movies file; the object under a key has that key as its [id] and, as its
    title, the title of the last line of the movies file with that id. *)
Theorem load_catalog movies training s :
  load movies training = inr s ->
  forall k,
    (k ∈ dom (movie_dict s) <-> k ∈ map fst movies) /\
    Movie.title <$> movie_dict s !! k = snd <$> last (movie_lines k movies) /\
    Movie.id <$> movie_dict s !! k = (fun _ => k) <$> last (movie_lines k movies).
Proof.
  intros Hl k. pose proof (load_ratings_read movies training s Hl) as Hr.
  split_and!.
  - rewrite elem_of_dom. apply (ratings_read_known movies training s k Hr).
  - rewrite (rr_movies _ _ _ Hr). by destruct (last (movie_lines k movies)).
  - rewrite (rr_movies _ _ _ Hr). by destruct (last (movie_lines k movies)).
Qed.

Lemma load_catalog_witness :
  load demo_movies demo_training = inr demo_state /\
  forall k,
    (k ∈ dom (movie_dict demo_state) <-> k ∈ map fst demo_movies) /\
    Movie.title <$> movie_dict demo_state !! k = snd <$> last (movie_lines k demo_movies) /\
    Movie.id <$> movie_dict demo_state !! k =
      (fun _ => k) <$> last (movie_lines k demo_movies).
Proof.
  split; [exact demo_loaded|].
  exact (load_catalog demo_movies demo_training demo_state demo_loaded).
Defined.

(** X3.  On a loaded object, [user_dict[u][m]] is present exactly when the
    training file has a line of user [u] for movie [m], and it is the rating
    of the last such line. *)
Theorem load_rating_last_wins movies training s :
  load movies training = inr s ->
  forall u m,
    rating_of s u m = (fun t => t.2) <$> last (lines_of_pair u m training).
Proof.
  intros Hl u m. apply (rr_ratings _ _ _ (load_ratings_read movies training s Hl)).
Qed.

Lemma load_rating_last_wins_witness :
  load demo_movies demo_training = inr demo_state /\
  forall u m,
    rating_of demo_state u m =
    (fun t => t.2) <$> last (lines_of_pair u m demo_training).
Proof.
  split; [exact demo_loaded|].
  exact (load_rating_last_wins demo_movies demo_training demo_state demo_loaded).
Defined.

(** X4.  On a loaded object, the list [users] of a movie holds the users of
    the training lines about that movie, in the order of the file and as
    often as there are such lines; so it has no repeated user when no (user,
    movie) pair occurs on two lines of the training file. *)
Theorem load_raters_in_file_order movies training s :
  load movies training = inr s ->
  forall m,
    raters s m = map (fun t => t.1.1) (lines_of_movie m training) /\
    (NoDup (map fst training) -> NoDup (raters s m)).
Proof.
  intros Hl m. pose proof (load_ratings_read movies training s Hl) as Hr.
  assert (Heq : raters s m = map (fun t : Z * Z * Q => t.1.1) (lines_of_movie m training)).
  { unfold raters. rewrite (rr_movies _ _ _ Hr).
    destruct (last (movie_lines m movies)) as [l|] eqn:Hlast; [done|]. simpl.
    destruct (lines_of_movie m training) as [|t ts] eqn:Hlines; [done|]. exfalso.
    assert (Ht : t ∈ lines_of_movie m training) by (rewrite Hlines; by left).
    apply list_elem_of_filter in Ht as [Hm Ht].
    destruct (load_succeeds_iff_aux movies training s Hl t Ht) as [x Hx].
    rewrite Hm, Hlast in Hx. done. }
  split; [done|]. intros Hnd. rewrite Heq. by apply lines_NoDup_raters.
Qed.

Lemma load_raters_in_file_order_witness :
  load demo_movies demo_training = inr demo_state /\
  forall m,
    raters demo_state m = map (fun t => t.1.1) (lines_of_movie m demo_training) /\
    (NoDup (map fst demo_training) -> NoDup (raters demo_state m)).
Proof.
  split; [exact demo_loaded|].
  exact (load_raters_in_file_order demo_movies demo_training demo_state demo_loaded).
Defined.

(** X5.  A freshly loaded object has every [similarities] dictionary empty
    and has computed no similarity. *)
Theorem load_caches_empty movies training s :
  load movies training = inr s ->
  (forall k m, movie_dict s !! k = Some m -> Movie.similarities m = ∅) /\
  (forall a b, cache s a b = None) /\
  computations s = [].
Proof.
  intros Hl. pose proof (load_loading movies training s Hl) as Hload.
  split_and!; [apply Hload | intros; by apply loading_cache | apply Hload].
Qed.

Lemma load_caches_empty_witness :
  load demo_movies demo_training = inr demo_state /\
  (forall k m, movie_dict demo_state !! k = Some m -> Movie.similarities m = ∅) /\
  (forall a b, cache demo_state a b = None) /\
  computations demo_state = [].
Proof.
  split; [exact demo_loaded|].
  exact (load_caches_empty demo_movies demo_training demo_state demo_loaded).
Defined.

(** ** What the calls raise *)

Lemma similarity_result_is_Some s a b :
  consistent s -> is_Some (similarity_result s a b) <-> is_Some (movie_dict s !! b).
Proof.
  intros Hs. split; [|apply similarity_result_known].
  unfold similarity_result. destruct (cache s a b) as [v|] eqn:Hc.
  - intros _. apply (cached_known s a b Hs). eauto.
  - destruct (movie_dict s !! b); [eauto | by intros [? ?]].
Qed.

(** X6.  On a loaded object, after any calls, [predict_rating] returns a
    number or raises [BadInputError] (never [KeyError] or [TypeError]), and
    [get_similarity] on a known receiver raises nothing: it returns a number
    for a known movie and [None] for an unknown one. *)
Theorem loaded_calls_raise_only_bad_input movies training s0 cs u i a b :
  load movies training = inr s0 ->
  is_Some (movie_dict s0 !! a) ->
  let s := run cs s0 in
  ((exists p, (predict_rating u i s).1 = inr p) \/
   (predict_rating u i s).1 = inl BadInputError) /\
  exists r, (get_similarity a b s).1 = inr r /\
            (is_Some r <-> is_Some (movie_dict s0 !! b)).
Proof.
  intros Hl Ha0 s.
  assert (Hs : consistent s) by (apply run_consistent, (load_consistent movies training); done).
  destruct (run_stores cs s0) as [_ Hcat]. fold s in Hcat. split.
  - destruct (predict_rating_cases s u i Hs)
      as [(p & -> & _) | [(d & _ & _ & _ & ->) | (_ & ->)]]; eauto.
  - exists (similarity_result s a b). split.
    + rewrite get_similarity_spec; [done | done |]. by apply (catalog_eq_known s0 s).
    + rewrite (similarity_result_is_Some s a b Hs). apply (catalog_eq_known s0 s a Hcat)
        || apply (catalog_eq_known s0 s b Hcat).
Qed.

Lemma loaded_calls_raise_only_bad_input_witness :
  load demo_movies demo_training = inr demo_state /\
  is_Some (movie_dict demo_state !! 1) /\
  let s := run [Predict 1 3; Similarity 2 1] demo_state in
  ((exists p, (predict_rating 9 3 s).1 = inr p) \/
   (predict_rating 9 3 s).1 = inl BadInputError) /\
  exists r, (get_similarity 1 7 s).1 = inr r /\
            (is_Some r <-> is_Some (movie_dict demo_state !! 7)).
Proof.
  assert (H1 : is_Some (movie_dict demo_state !! 1)) by evaluated.
  split_and!; [exact demo_loaded | exact H1 |].
  exact (loaded_calls_raise_only_bad_input demo_movies demo_training demo_state
           [Predict 1 3; Similarity 2 1] 9 3 1 7 demo_loaded H1).
Defined.

(** X7.  In every state, [get_similarity] on a receiver of the catalog does
    not raise [BadInputError]; for a movie that is neither cached on the
    receiver nor in [movie_dict] it returns [None] and changes nothing. *)
Theorem get_similarity_swallows_bad_input s a b :
  is_Some (movie_dict s !! a) ->
  (get_similarity a b s).1 <> inl BadInputError /\
  (cache s a b = None -> movie_dict s !! b = None ->
   get_similarity a b s = (inr None, s)).
Proof.
  intros Ha. split; [apply no_bad_input_get_similarity|].
  intros Hc Hb. by apply get_similarity_unknown.
Qed.

Lemma get_similarity_swallows_bad_input_witness :
  is_Some (movie_dict demo_state !! 2) /\
  (get_similarity 2 42 demo_state).1 <> inl BadInputError /\
  (cache demo_state 2 42 = None -> movie_dict demo_state !! 42 = None ->
   get_similarity 2 42 demo_state = (inr None, demo_state)).
Proof.
  assert (H2 : is_Some (movie_dict demo_state !! 2)) by evaluated.
  split; [exact H2|].
  exact (get_similarity_swallows_bad_input demo_state 2 42 H2).
Defined.

(** ** What one computation stores *)

(** X8.  In a consistent state, a call of [get_similarity a b] on known
    movies that finds nothing cached counts one computation and writes two
    cache entries, [b] on [a] and [a] on [b], both with the returned value;
    every other cache entry is as before. *)
Theorem get_similarity_miss_writes_two_entries s a b :
  consistent s -> is_Some (movie_dict s !! a) -> is_Some (movie_dict s !! b) ->
  cache s a b = None ->
  exists v,
    (get_similarity a b s).1 = inr (Some v) /\
    computations (get_similarity a b s).2 = computations s ++ [(a, b)] /\
    forall x y,
      cache (get_similarity a b s).2 x y =
      if decide ((x, y) = (a, b) \/ (x, y) = (b, a)) then Some v else cache s x y.
Proof.
  intros Hs Ha Hb Hmiss. exists (similarity_value s a b).
  rewrite get_similarity_miss by done. simpl.
  destruct (stores_memoized s a b) as (_ & _ & Hl). split_and!; [done | done |].
  intros x y. rewrite cache_memoized by done.
  destruct (decide (x = b /\ y = a)) as [[-> ->]|N1].
  { rewrite decide_True; [done | by right]. }
  destruct (decide (x = a /\ y = b)) as [[-> ->]|N2].
  { rewrite decide_True; [done | by left]. }
  rewrite decide_False; [done|]. intros [[= -> ->]|[= -> ->]]; [by apply N2 | by apply N1].
Qed.

Lemma get_similarity_miss_writes_two_entries_witness :
  consistent demo_state /\ is_Some (movie_dict demo_state !! 1) /\
  is_Some (movie_dict demo_state !! 2) /\ cache demo_state 1 2 = None /\
  exists v,
    (get_similarity 1 2 demo_state).1 = inr (Some v) /\
    computations (get_similarity 1 2 demo_state).2 = computations demo_state ++ [(1, 2)] /\
    forall x y,
      cache (get_similarity 1 2 demo_state).2 x y =
      if decide ((x, y) = (1, 2) \/ (x, y) = (2, 1)) then Some v else cache demo_state x y.
Proof.
  assert (H1 : is_Some (movie_dict demo_state !! 1)) by evaluated.
  assert (H2 : is_Some (movie_dict demo_state !! 2)) by evaluated.
  assert (Hmiss : cache demo_state 1 2 = None) by evaluated.
  split_and!; [apply demo_consistent | exact H1 | exact H2 | exact Hmiss |].
  exact (get_similarity_miss_writes_two_entries demo_state 1 2 demo_consistent H1 H2 Hmiss).
Defined.

(** ** The computed similarity: symmetry, identity, range *)





Lemma Qsum_zero (l : list Q) : (forall x, x ∈ l -> (x == 0)%Q) -> (Qsum l == 0)%Q.
Proof.
  induction l as [|x l IH]; intros H; simpl; [reflexivity|].
  rewrite (H x) by by left. rewrite IH by (intros; apply H; by right). ring.
Qed.

Lemma filter_elem_of_self (l l' : list Z) :
  (forall x, x ∈ l' -> x ∈ l) -> filter (fun u => u ∈ l) l' = l'.
Proof.
  induction l' as [|x l' IH]; intros H; [done|].
  rewrite filter_cons, decide_True by (apply H; by left).
  f_equal. apply IH. intros; apply H; by right.
Qed.

Lemma Qsum_le_bound (l : list Q) (c : Q) :
  (forall x, x ∈ l -> (x <= c)%Q) ->
  (Qsum l <= c * inject_Z (Z.of_nat (length l)))%Q.
Proof.
  induction l as [|x l IH]; intros H.
  - change (inject_Z (Z.of_nat (length (@nil Q)))) with 0%Q. rewrite Qmult_0_r. done.
  - assert (Hx : (x <= c)%Q) by (apply H; by left).
    assert (Hl : (Qsum l <= c * inject_Z (Z.of_nat (length l)))%Q)
      by (apply IH; intros; apply H; by right).
    simpl length. rewrite Nat2Z.inj_succ. unfold Z.succ. rewrite inject_Z_plus.
    change (Qsum (x :: l)) with (x + Qsum l)%Q. change (inject_Z 1) with 1%Q. lra.
Qed.

Lemma abs_diff_within s a b u lo hi :
  ratings_within s lo hi ->
  is_Some (rating_of s u a) -> is_Some (rating_of s u b) ->
  (abs_diff s a b u <= hi - lo)%Q.
Proof.
  intros Hw [ra Hra] [rb Hrb]. unfold abs_diff. rewrite Hra, Hrb.
  change (default 0%Q (Some ra)) with ra. change (default 0%Q (Some rb)) with rb.
  destruct (Hw u a ra Hra), (Hw u b rb Hrb).
  apply Qabs_Qle_condition. split; lra.
Qed.

(** With ratings spanning at most 4.5, a computed similarity is in [0, 1]. *)
Lemma similarity_value_range s a b lo hi :
  consistent s -> ratings_within s lo hi -> (hi - lo <= 45 # 10)%Q ->
  (0 <= similarity_value s a b <= 1)%Q.
Proof.
  intros Hs Hw Hspan. rewrite similarity_value_over.
  split; [|apply similarity_over_le_1].
  unfold similarity_over. destruct (common_raters s a b) as [|u0 us] eqn:Hc; [lra|].
  set (l := map (abs_diff s a b) (u0 :: us)).
  set (n := inject_Z (Z.of_nat (length (u0 :: us)))).
  assert (Hn : (0 < n)%Q).
  { unfold n. change 0%Q with (inject_Z 0). rewrite <- Zlt_Qlt. simpl length. lia. }
  assert (Hsum : (Qsum l <= (45 # 10) * n)%Q).
  { unfold n. replace (length (u0 :: us)) with (length l) by (unfold l; by rewrite length_map).
    apply Qsum_le_bound. intros x (u & -> & Hu)%list_elem_of_fmap.
    rewrite <- Hc in Hu. apply common_raters_elem in Hu as [Hua Hub].
    assert (abs_diff s a b u <= hi - lo)%Q; [|lra].
    apply abs_diff_within; [done | by apply (raters_rated s Hs) ..]. }
  assert (Hmean : (Qsum l / n <= 45 # 10)%Q) by (apply Qle_shift_div_r; [done | lra]).
  assert (Hq : (Qsum l / n / (45 # 10) <= 1)%Q) by (apply Qle_shift_div_r; [done | lra]).
  lra.
Qed.

(** X10.  In a consistent state, the similarity computed between a known
    movie that has a rater and itself is 1. *)
Theorem compute_similarity_self s a :
  consistent s -> is_Some (movie_dict s !! a) -> raters s a <> [] ->
  exists v, (compute_similarity a a s).1 = inr v /\ (v == 1)%Q.
Proof.
  intros Hs Ha Hne. exists (similarity_value s a a).
  rewrite compute_similarity_spec by done. split; [done|].
  rewrite similarity_value_over. unfold common_raters.
  rewrite filter_elem_of_self by done. unfold similarity_over.
  destruct (raters s a) as [|u us]; [done|].
  rewrite Qsum_zero.
  - unfold Qdiv. ring.
  - intros x (u' & -> & _)%list_elem_of_fmap. unfold abs_diff.
    assert (default 0 (rating_of s u' a) - default 0 (rating_of s u' a) == 0)%Q as -> by ring.
    reflexivity.
Qed.

Lemma compute_similarity_self_witness :
  consistent demo_state /\ is_Some (movie_dict demo_state !! 3) /\
  raters demo_state 3 <> [] /\
  exists v, (compute_similarity 3 3 demo_state).1 = inr v /\ (v == 1)%Q.
Proof.
  assert (H3 : is_Some (movie_dict demo_state !! 3)) by evaluated.
  assert (Hne : raters demo_state 3 <> []) by evaluated.
  split_and!; [apply demo_consistent | exact H3 | exact Hne |].
  exact (compute_similarity_self demo_state 3 demo_consistent H3 Hne).
Defined.

(** ** Ratings within bounds, and what the caches hold *)

Lemma load_ratings_within movies training s lo hi :
  load movies training = inr s ->
  (forall t, t ∈ training -> (lo <= t.2 <= hi)%Q) ->
  ratings_within s lo hi.
Proof.
  intros Hl Hall u m r. rewrite (rr_ratings _ _ _ (load_ratings_read movies training s Hl)).
  destruct (last (lines_of_pair u m training)) as [t|] eqn:Hlast; [|done].
  intros [= <-]. apply Hall. apply last_Some_elem_of in Hlast.
  unfold lines_of_pair in Hlast. by apply list_elem_of_filter in Hlast as [_ ?].
Qed.

Lemma loading_cache_sound s : loading s -> cache_sound s.
Proof. intros Hl a b v. by rewrite loading_cache. Qed.

Lemma cache_sound_similarity_state s a b :
  consistent s -> is_Some (movie_dict s !! a) -> cache_sound s ->
  cache_sound (similarity_state s a b).
Proof.
  intros Hs Ha Hsound. unfold similarity_state.
  destruct (cache s a b) eqn:Hc; [done|].
  destruct (movie_dict s !! b) eqn:Hb; [|done].
  destruct (stores_memoized s a b) as (Hu & Hcat & _).
  intros x y v. rewrite !(similarity_value_frame s _ _ _ Hu Hcat).
  rewrite cache_memoized by eauto.
  destruct (decide (x = b /\ y = a)) as [[-> ->]|N1]; [intros [= <-]; by right|].
  destruct (decide (x = a /\ y = b)) as [[-> ->]|N2]; [intros [= <-]; by left|].
  apply Hsound.
Qed.

Lemma cache_sound_loop_state s i keys :
  consistent s -> is_Some (movie_dict s !! i) -> cache_sound s ->
  cache_sound (loop_state s i keys).
Proof.
  revert s. induction keys as [|m rest IH]; intros s Hs Hi Hsound; [done|].
  apply IH; [by apply consistent_similarity_state | by apply known_similarity_state |].
  by apply cache_sound_similarity_state.
Qed.

Lemma exec_cache_sound c s : consistent s -> cache_sound s -> cache_sound (exec c s).
Proof.
  intros Hs Hsound. destruct c as [u i | a b]; simpl.
  - destruct (predict_rating_cases s u i Hs)
      as [(p & -> & _) | [(d & Hd & Hi & Hr & ->) | (_ & ->)]]; try done.
    by apply cache_sound_loop_state.
  - destruct (movie_dict s !! a) as [ma|] eqn:Ha.
    + rewrite (bind_inr _ _ _ _ _ (movie_obj_Some _ _ _ Ha)).
      rewrite get_similarity_spec by eauto. by apply cache_sound_similarity_state; eauto.
    + by rewrite (bind_inl _ _ _ _ _ (movie_obj_None _ _ Ha)).
Qed.

Lemma run_cache_sound cs s : consistent s -> cache_sound s -> cache_sound (run cs s).
Proof.
  revert s. induction cs as [|c cs IH]; intros s Hs Hsound; [done|].
  apply IH; [by apply exec_consistent | by apply exec_cache_sound].
Qed.

(** X11.  In a consistent state whose ratings all lie in an interval of
    width at most 4.5 (0.5 to 5, say), the similarity computed for known
    movies lies between 0 and 1. *)
Theorem compute_similarity_range s a b lo hi :
  consistent s -> ratings_within s lo hi -> (hi - lo <= 45 # 10)%Q ->
  is_Some (movie_dict s !! a) -> is_Some (movie_dict s !! b) ->
  exists v, (compute_similarity a b s).1 = inr v /\ (0 <= v <= 1)%Q.
Proof.
  intros Hs Hw Hspan Ha Hb. exists (similarity_value s a b).
  rewrite compute_similarity_spec by done. split; [done|].
  by apply (similarity_value_range s a b lo hi).
Qed.

Lemma demo_ratings_within : ratings_within demo_state 1 5.
Proof.
  apply (load_ratings_within demo_movies demo_training); [exact demo_loaded|].
  intros t Ht. unfold demo_training in Ht.
  repeat (apply elem_of_cons in Ht as [->|Ht]; [simpl; lra|]).
  by apply elem_of_nil in Ht.
Qed.

Lemma compute_similarity_range_witness :
  consistent demo_state /\ ratings_within demo_state 1 5 /\ (5 - 1 <= 45 # 10)%Q /\
  is_Some (movie_dict demo_state !! 1) /\ is_Some (movie_dict demo_state !! 2) /\
  exists v, (compute_similarity 1 2 demo_state).1 = inr v /\ (0 <= v <= 1)%Q.
Proof.
  assert (H1 : is_Some (movie_dict demo_state !! 1)) by evaluated.
  assert (H2 : is_Some (movie_dict demo_state !! 2)) by evaluated.
  assert (Hspan : (5 - 1 <= 45 # 10)%Q) by lra.
  split_and!; [apply demo_consistent | apply demo_ratings_within | exact Hspan
              | exact H1 | exact H2 |].
  exact (compute_similarity_range demo_state 1 2 1 5 demo_consistent demo_ratings_within
           Hspan H1 H2).
Defined.

(** X12.  On a loaded object, after any calls, every cached similarity is a
    value that [compute_similarity] returns for its pair on the loaded
    object, in one of the two directions. *)
Theorem cached_similarity_is_computed movies training s0 cs a b v :
  load movies training = inr s0 ->
  cache (run cs s0) a b = Some v ->
  (compute_similarity a b s0).1 = inr v \/ (compute_similarity b a s0).1 = inr v.
Proof.
  intros Hl Hc.
  pose proof (load_consistent movies training s0 Hl) as Hs0.
  pose proof (run_consistent cs s0 Hs0) as Hs.
  assert (Hsound : cache_sound (run cs s0)).
  { apply run_cache_sound; [done|]. by apply loading_cache_sound, (load_loading movies training). }
  destruct (run_stores cs s0) as [Hu Hcat].
  assert (Ha : is_Some (movie_dict s0 !! a)).
  { apply (catalog_eq_known s0 (run cs s0) a Hcat). apply (cache_known _ a b). eauto. }
  assert (Hb : is_Some (movie_dict s0 !! b)).
  { apply (catalog_eq_known s0 (run cs s0) b Hcat). apply (cached_known _ a b Hs). eauto. }
  rewrite !compute_similarity_spec by done. simpl.
  destruct (Hsound a b v Hc) as [-> | ->]; [left | right];
    by rewrite (similarity_value_frame s0 _ _ _ Hu Hcat).
Qed.

Lemma cached_similarity_is_computed_witness :
  load demo_movies demo_training = inr demo_state /\
  cache (run [Similarity 2 1; Predict 1 3] demo_state) 1 2 = Some (50 # 90)%Q /\
  ((compute_similarity 1 2 demo_state).1 = inr (50 # 90)%Q \/
   (compute_similarity 2 1 demo_state).1 = inr (50 # 90)%Q).
Proof.
  assert (Hc : cache (run [Similarity 2 1; Predict 1 3] demo_state) 1 2 = Some (50 # 90)%Q)
    by evaluated.
  split_and!; [exact demo_loaded | exact Hc |].
  exact (cached_similarity_is_computed demo_movies demo_training demo_state
           [Similarity 2 1; Predict 1 3] 1 2 (50 # 90)%Q demo_loaded Hc).
Defined.

(** ** Predicting twice, and what one prediction computes *)

Lemma similarity_result_loop_state s i keys m :
  consistent s -> is_Some (movie_dict s !! i) ->
  similarity_result (loop_state s i keys) i m = similarity_result s i m.
Proof.
  revert s. induction keys as [|k rest IH]; intros s Hs Hi; [done|].
  cbn [loop_state fold_left]. fold (loop_state (similarity_state s i k) i rest).
  rewrite IH; [by apply similarity_result_stable | by apply consistent_similarity_state
              | by apply known_similarity_state].
Qed.

Lemma loop_state_cached s i keys :
  consistent s -> is_Some (movie_dict s !! i) ->
  (forall m, m ∈ keys -> is_Some (movie_dict s !! m)) ->
  forall m, m ∈ keys -> is_Some (cache (loop_state s i keys) i m).
Proof.
  revert s. induction keys as [|k rest IH]; intros s Hs Hi Hknown m Hm.
  - by apply elem_of_nil in Hm.
  - cbn [loop_state fold_left]. fold (loop_state (similarity_state s i k) i rest).
    assert (Hs' := consistent_similarity_state s i k Hs Hi).
    assert (Hi' : is_Some (movie_dict (similarity_state s i k) !! i))
      by by apply known_similarity_state.
    apply elem_of_cons in Hm as [->|Hm].
    + assert (Hk : is_Some (movie_dict s !! k)) by (apply Hknown; by left).
      destruct (similarity_result_known s i k Hk) as [w Hw].
      exists w. apply cache_loop_state; [done | done |].
      rewrite <- Hw. by apply cache_after_similarity.
    + apply IH; [done | done | | done].
      intros m' Hm'. apply known_similarity_state. apply Hknown. by right.
Qed.

Lemma loop_state_fixed s i l :
  (forall m, m ∈ l -> is_Some (cache s i m)) -> loop_state s i l = s.
Proof.
  induction l as [|m rest IH]; intros H; [done|].
  cbn [loop_state fold_left].
  assert (Hfix : similarity_state s i m = s).
  { unfold similarity_state. destruct (H m) as [v ->]; [by left | done]. }
  rewrite Hfix. apply IH. intros; apply H; by right.
Qed.

(** X14.  In a consistent state, a second identical call of
    [predict_rating] returns (or raises) what the first did and leaves the
    state of the first as it is: it computes and stores nothing. *)
Theorem predict_rating_idempotent s u i :
  consistent s ->
  predict_rating u i (predict_rating u i s).2 = predict_rating u i s.
Proof.
  intros Hs.
  destruct (predict_rating_cases s u i Hs)
    as [(p & Hp & _) | [(d & Hd & Hi & Hnot & Hun) | (_ & Hbad)]].
  - by rewrite Hp.
  - rewrite Hun. simpl.
    assert (Hs1 := consistent_loop_state s i (dict_keys d) Hs Hi).
    destruct (keeps_predict_rating u i s) as [Hu Hcat]. rewrite Hun in Hu, Hcat.
    simpl in Hu, Hcat.
    assert (Hi1 : is_Some (movie_dict (loop_state s i (dict_keys d)) !! i))
      by by apply (catalog_eq_known s).
    rewrite (predict_rating_unrated _ u i d Hs1); [|by rewrite Hu | done | done].
    rewrite (loop_sums_ext s) by (intros; by apply similarity_result_loop_state).
    rewrite loop_state_fixed; [done|].
    apply loop_state_cached; [done | done |].
    intros m Hm. by apply (rated_keys_known s u d m).
  - by rewrite Hbad.
Qed.

Lemma predict_rating_idempotent_witness :
  consistent sample_state /\
  predict_rating 3 2 (predict_rating 3 2 sample_state).2 = predict_rating 3 2 sample_state.
Proof.
  split; [exact sample_consistent|].
  exact (predict_rating_idempotent sample_state 3 2 sample_consistent).
Defined.

Lemma filter_ext_in {A} (P1 P2 : A -> Prop) `{!forall x, Decision (P1 x)}
    `{!forall x, Decision (P2 x)} (l : list A) :
  (forall x, x ∈ l -> P1 x <-> P2 x) -> filter P1 l = filter P2 l.
Proof.
  induction l as [|x l IH]; intros Hext; [done|].
  rewrite !filter_cons. destruct (Hext x) as [H1 H2]; [by left|].
  rewrite IH by (intros; apply Hext; by right).
  destruct (decide (P1 x)), (decide (P2 x)); tauto || done.
Qed.

Lemma computations_similarity_state s a b :
  is_Some (movie_dict s !! b) ->
  computations (similarity_state s a b) =
  computations s ++ (if decide (cache s a b = None) then [(a, b)] else []).
Proof.
  intros [mb Hb]. unfold similarity_state.
  destruct (cache s a b) as [v|] eqn:Hc.
  - rewrite decide_False by done. by rewrite app_nil_r.
  - rewrite decide_True by done. rewrite Hb. apply stores_memoized.
Qed.

Lemma cache_similarity_state_other s a b m :
  consistent s -> is_Some (movie_dict s !! a) -> m <> b ->
  cache (similarity_state s a b) a m = cache s a m.
Proof.
  intros Hs Ha Hne. unfold similarity_state.
  destruct (cache s a b) eqn:Hc; [done|].
  destruct (movie_dict s !! b) eqn:Hb; [|done].
  rewrite cache_memoized by eauto.
  rewrite decide_False by (intros [<- ->]; done).
  rewrite decide_False by (intros [_ ->]; done). done.
Qed.

Lemma computations_loop_state s i keys :
  consistent s -> is_Some (movie_dict s !! i) -> NoDup keys ->
  (forall m, m ∈ keys -> is_Some (movie_dict s !! m)) ->
  computations (loop_state s i keys) =
  computations s ++ map (fun m => (i, m)) (filter (fun m => cache s i m = None) keys).
Proof.
  revert s. induction keys as [|k rest IH]; intros s Hs Hi Hnd Hknown.
  - simpl. by rewrite app_nil_r.
  - apply NoDup_cons in Hnd as [Hk Hnd].
    cbn [loop_state fold_left]. fold (loop_state (similarity_state s i k) i rest).
    rewrite IH; [| by apply consistent_similarity_state | by apply known_similarity_state
                 | done | intros; apply known_similarity_state, Hknown; by right].
    rewrite computations_similarity_state by (apply Hknown; by left).
    rewrite (filter_ext_in (fun m => cache (similarity_state s i k) i m = None)
               (fun m => cache s i m = None) rest); cycle 1.
    { intros m Hm. rewrite cache_similarity_state_other; [done | done | done |].
      intros ->. done. }
    rewrite filter_cons, <- app_assoc. f_equal. by case_decide.
Qed.

(** X15.  In a consistent state, a call of [predict_rating] for a known user
    who has not rated the known movie [i] computes exactly the similarities
    of [i] with the user's rated movies that are not yet cached on [i], once
    each and in the order of the user's dictionary; so at most as many as
    the user has ratings. *)
Theorem predict_rating_computations s u i d :
  consistent s -> user_dict s !! u = Some d -> is_Some (movie_dict s !! i) ->
  dict_get d i = None ->
  computations (predict_rating u i s).2 =
    computations s ++
    map (fun m => (i, m)) (filter (fun m => cache s i m = None) (dict_keys d)) /\
  (length (computations (predict_rating u i s).2) <= length (computations s) + length d)%nat.
Proof.
  intros Hs Hd Hi Hnot. rewrite (predict_rating_unrated s u i d) by done. simpl.
  assert (Heq := computations_loop_state s i (dict_keys d) Hs Hi
                   (keys_unique s Hs u d Hd)
                   (fun m Hm => proj2 (rated_keys_known s u d m Hs Hd Hm))).
  split; [done|]. rewrite Heq, length_app, length_map.
  pose proof (length_filter (fun m => cache s i m = None) (dict_keys d)) as Hf.
  unfold dict_keys in Hf at 2. rewrite length_map in Hf. lia.
Qed.

Lemma predict_rating_computations_witness :
  consistent sample_state /\
  user_dict sample_state !! 3 = Some [(3, 1%Q); (1, 2%Q)] /\
  is_Some (movie_dict sample_state !! 2) /\
  dict_get [(3, 1%Q); (1, 2%Q)] 2 = None /\
  computations (predict_rating 3 2 sample_state).2 =
    computations sample_state ++
    map (fun m => (2, m))
      (filter (fun m => cache sample_state 2 m = None) (dict_keys [(3, 1%Q); (1, 2%Q)])) /\
  (length (computations (predict_rating 3 2 sample_state).2) <=
   length (computations sample_state) + length [(3, 1%Q); (1, 2%Q)])%nat.
Proof.
  assert (Hd : user_dict sample_state !! 3 = Some [(3, 1%Q); (1, 2%Q)]) by evaluated.
  assert (H2 : is_Some (movie_dict sample_state !! 2)) by evaluated.
  assert (Hnot : dict_get [(3, 1%Q); (1, 2%Q)] 2 = None) by evaluated.
  split_and!; [exact sample_consistent | exact Hd | exact H2 | exact Hnot | |];
    apply (predict_rating_computations sample_state 3 2 [(3, 1%Q); (1, 2%Q)]
             sample_consistent Hd H2 Hnot).
Defined.

(** ** The batch: composition and failure *)

Lemma predict_ratings_loop_acc lines acc s :
  predict_ratings_loop lines acc s =
  match predict_ratings_loop lines [] s with
  | (inl e, s1) => (inl e, s1)
  | (inr out, s1) => (inr (acc ++ out), s1)
  end.
Proof.
  revert acc s. induction lines as [|[[u m] actual] rest IH]; intros acc s.
  - simpl. unfold ret. by rewrite app_nil_r.
  - cbn [predict_ratings_loop]. unfold bind, get_state, getitem.
    destruct (predict_rating u m s) as [[e|p] s1]; [done|].
    destruct (movie_dict s1 !! m) as [mv|]; [|done]. unfold ret.
    rewrite (IH (acc ++ [(u, Movie.title mv, p, actual)])).
    match goal with
    | |- context [predict_ratings_loop rest (?l0 ++ ?l) s1] => rewrite (IH (l0 ++ l) s1)
    end.
    destruct (predict_ratings_loop rest [] s1) as [[e|out] s2]; [done|].
    by rewrite <- app_assoc.
Qed.

Lemma keeps_predict_ratings_loop lines acc : keeps_stores (predict_ratings_loop lines acc).
Proof.
  revert acc. induction lines as [|[[u m] actual] rest IH]; intros acc;
    cbn [predict_ratings_loop]; [auto with stores|].
  repeat (apply keeps_bind; [auto using keeps_predict_rating with stores | intros]).
  apply IH.
Qed.

Lemma predict_ratings_loop_app l1 l2 s :
  predict_ratings_loop (l1 ++ l2) [] s =
  match predict_ratings_loop l1 [] s with
  | (inl e, s1) => (inl e, s1)
  | (inr out1, s1) =>
      match predict_ratings_loop l2 [] s1 with
      | (inl e, s2) => (inl e, s2)
      | (inr out2, s2) => (inr (out1 ++ out2), s2)
      end
  end.
Proof.
  revert s.
  induction l1 as [|[[u m] actual] rest IH]; intros s.
  - simpl. by destruct (predict_ratings_loop l2 [] s) as [[e|out] s2].
  - cbn [app predict_ratings_loop]. unfold bind, get_state, getitem.
    destruct (predict_rating u m s) as [[e|p] s1]; [done|].
    destruct (movie_dict s1 !! m) as [mv|]; [|done]. unfold ret.
    match goal with
    | |- context [predict_ratings_loop (rest ++ l2) ?l s1] =>
        rewrite (predict_ratings_loop_acc (rest ++ l2) l s1), IH;
        rewrite (predict_ratings_loop_acc rest l s1)
    end.
    destruct (predict_ratings_loop rest [] s1) as [[e|out1] s2]; [done|].
    destruct (predict_ratings_loop l2 [] s2) as [[e|out2] s3]; [done|].
    by rewrite app_assoc.
Qed.

(** X16.  In every state, predicting a batch [l1 ++ l2] is predicting [l1]
    and then, if that did not raise, predicting [l2] in the state it left:
    the lists are appended, and an exception of either part is the
    exception of the whole, with the state reached. *)
Theorem predict_ratings_app l1 l2 s :
  predict_ratings (l1 ++ l2) s =
  match predict_ratings l1 s with
  | (inl e, s1) => (inl e, s1)
  | (inr out1, s1) =>
      match predict_ratings l2 s1 with
      | (inl e, s2) => (inl e, s2)
      | (inr out2, s2) => (inr (out1 ++ out2), s2)
      end
  end.
Proof. apply predict_ratings_loop_app. Qed.

(** X17.  In a consistent state, a batch whose first record with an unknown
    user or movie comes after records that are all known raises
    [BadInputError] at that record: no list is returned, and the state is
    the one left by the predictions of the records before it. *)
Theorem predict_ratings_first_unknown_raises s pre u m actual post :
  consistent s ->
  (forall u' m' actual', (u', m', actual') ∈ pre ->
     is_Some (user_dict s !! u') /\ is_Some (movie_dict s !! m')) ->
  user_dict s !! u = None \/ movie_dict s !! m = None ->
  predict_ratings (pre ++ (u, m, actual) :: post) s =
  (inl BadInputError, (predict_ratings pre s).2).
Proof.
  intros Hs Hknown Hbad. unfold predict_ratings. rewrite predict_ratings_loop_app.
  destruct (predict_ratings_loop_spec pre s [] Hs Hknown) as (out & s1 & Hout & _).
  rewrite Hout. simpl.
  destruct (keeps_predict_ratings_loop pre [] s) as [Hu Hcat]. rewrite Hout in Hu, Hcat.
  simpl in Hu, Hcat.
  cbn [predict_ratings_loop].
  rewrite (bind_inl _ _ _ BadInputError s1); [done|].
  apply predict_rating_bad_input. rewrite Hu.
  destruct Hbad as [?|Hm]; [by left | right].
  destruct (movie_dict s1 !! m) eqn:Hm1; [|done].
  assert (is_Some (movie_dict s !! m)) as [? ?]
    by (apply (catalog_eq_known s s1 m Hcat); eauto).
  congruence.
Qed.

Lemma predict_ratings_first_unknown_raises_witness :
  consistent demo_state /\
  (forall u' m' actual', (u', m', actual') ∈ [(1, 3, 2%Q)] ->
     is_Some (user_dict demo_state !! u') /\ is_Some (movie_dict demo_state !! m')) /\
  (user_dict demo_state !! 2 = None \/ movie_dict demo_state !! 8 = None) /\
  predict_ratings ([(1, 3, 2%Q)] ++ (2, 8, 4%Q) :: [(3, 3, 1%Q)]) demo_state =
  (inl BadInputError, (predict_ratings [(1, 3, 2%Q)] demo_state).2).
Proof.
  assert (Hknown : forall u' m' actual', (u', m', actual') ∈ [(1, 3, 2%Q)] ->
            is_Some (user_dict demo_state !! u') /\ is_Some (movie_dict demo_state !! m')).
  { intros u' m' actual' Hin.
    apply elem_of_cons in Hin as [Hin|Hin];
      [injection Hin as -> -> ->; split; evaluated|].
    by apply elem_of_nil in Hin. }
  assert (Hbad : user_dict demo_state !! 2 = None \/ movie_dict demo_state !! 8 = None)
    by (right; evaluated).
  split_and!; [apply demo_consistent | exact Hknown | exact Hbad |].
  exact (predict_ratings_first_unknown_raises demo_state [(1, 3, 2%Q)] 2 8 4%Q [(3, 3, 1%Q)]
           demo_consistent Hknown Hbad).
Defined.

(** ** Training files without a repeated (user, movie) pair *)





(** ** The two stores describe the same ratings *)

Lemma lines_of_pair_movie u m training :
  u ∈ map (fun t : Z * Z * Q => t.1.1) (lines_of_movie m training) <->
  is_Some (last (lines_of_pair u m training)).
Proof.
  rewrite last_is_Some, list_elem_of_fmap. unfold lines_of_movie, lines_of_pair. split.
  - intros (t & -> & Ht) Hnil. apply list_elem_of_filter in Ht as [Hm Ht].
    assert (Hin : t ∈ filter (fun t' : Z * Z * Q => t'.1.1 = t.1.1 /\ t'.1.2 = m) training)
      by (by apply list_elem_of_filter).
    rewrite Hnil in Hin. by apply elem_of_nil in Hin.
  - intros Hne. destruct (filter _ training) as [|t ts] eqn:Hf; [done|].
    assert (Hin : t ∈ filter (fun t' : Z * Z * Q => t'.1.1 = u /\ t'.1.2 = m) training)
      by (rewrite Hf; by left).
    apply list_elem_of_filter in Hin as [[Hu Hm] Hin].
    exists t. split; [done|]. by apply list_elem_of_filter.
Qed.

(** X20.  On a loaded object, after any calls, a user is in the list
    [users] of a movie exactly when the user's dictionary in [user_dict] has
    a rating for that movie: this is what makes the two lookups
    [user_dict[user][...]] of [compute_similarity] safe. *)
Theorem loaded_raters_are_the_rated movies training s0 cs u m :
  load movies training = inr s0 ->
  u ∈ raters (run cs s0) m <-> is_Some (rating_of (run cs s0) u m).
Proof.
  intros Hl. destruct (run_stores cs s0) as [Hu Hcat].
  rewrite (catalog_eq_raters s0 _ m Hcat), (user_dict_eq_rating s0 _ u m Hu).
  pose proof (load_ratings_read movies training s0 Hl) as Hr.
  rewrite (rr_ratings _ _ _ Hr).
  assert (Hsome : is_Some ((fun t : Z * Z * Q => t.2) <$> last (lines_of_pair u m training))
                  <-> is_Some (last (lines_of_pair u m training))).
  { destruct (last (lines_of_pair u m training)); simpl; split; intros [? ?]; eauto; done. }
  rewrite Hsome, <- lines_of_pair_movie.
  unfold raters. rewrite (rr_movies _ _ _ Hr).
  destruct (last (movie_lines m movies)) as [l|] eqn:Hlast; [done|]. simpl.
  split; [by intros ?%elem_of_nil|].
  intros (t & -> & Ht)%list_elem_of_fmap. exfalso.
  apply list_elem_of_filter in Ht as [Hm Ht].
  destruct (load_succeeds_iff_aux movies training s0 Hl t Ht) as [x Hx].
  rewrite Hm, Hlast in Hx. done.
Qed.

Lemma loaded_raters_are_the_rated_witness :
  load demo_movies demo_training = inr demo_state /\
  (2 ∈ raters (run [Predict 1 3] demo_state) 1 <->
   is_Some (rating_of (run [Predict 1 3] demo_state) 2 1)).
Proof.
  split; [exact demo_loaded|].
  exact (loaded_raters_are_the_rated demo_movies demo_training demo_state [Predict 1 3] 2 1
           demo_loaded).
Defined.


(** * The prediction in binary64 arithmetic *)

Section Binary64_proofs.

Import Binary64.

Lemma b64_bind_inr {A B} (m : M A) (f : A -> M B) s a s' :
  m s = (inr a, s') -> bind m f s = f a s'.
Proof. unfold bind. intros ->. reflexivity. Qed.

Lemma b64_getitem_Some {V} (d : gmap Z V) k v s :
  d !! k = Some v -> getitem d k s = (inr v, s).
Proof. unfold getitem. intros ->. reflexivity. Qed.

Lemma b64_movie_obj_Some s a m :
  movie_dict s !! a = Some m -> movie_obj a s = (inr m, s).
Proof. intros H. unfold movie_obj, bind, get_state. by rewrite (b64_getitem_Some _ _ _ _ H). Qed.

(** ** The stores are left alone *)

Lemma b64_catalog_lookup s k :
  catalog s !! k =
  (fun m => (Movie.id m, Movie.title m, Movie.users m)) <$> movie_dict s !! k.
Proof. unfold catalog. by rewrite lookup_fmap. Qed.

Lemma b64_catalog_eq_known s s' k :
  catalog s' = catalog s -> is_Some (movie_dict s' !! k) <-> is_Some (movie_dict s !! k).
Proof.
  intros H. assert (Hk := b64_catalog_lookup s k). rewrite <- H, b64_catalog_lookup in Hk.
  destruct (movie_dict s' !! k), (movie_dict s !! k); simpl in Hk; done.
Qed.

Lemma b64_catalog_eq_record s s' k m' :
  catalog s' = catalog s -> movie_dict s' !! k = Some m' ->
  exists m, movie_dict s !! k = Some m /\ Movie.id m = Movie.id m' /\
            Movie.users m = Movie.users m'.
Proof.
  intros H Hm'. assert (Hk := b64_catalog_lookup s k).
  rewrite <- H, b64_catalog_lookup, Hm' in Hk.
  destruct (movie_dict s !! k) as [m|]; simpl in Hk; [|done].
  exists m. split; [done|]. split; congruence.
Qed.

Lemma b64_catalog_eq_raters s s' k :
  catalog s' = catalog s -> raters s' k = raters s k.
Proof.
  intros H. unfold raters.
  destruct (movie_dict s' !! k) as [m'|] eqn:Hm'.
  - by destruct (b64_catalog_eq_record _ _ _ _ H Hm') as (m & -> & _ & ->).
  - destruct (movie_dict s !! k) as [m|] eqn:Hm; [|done].
    assert (is_Some (movie_dict s' !! k)) as [? ?]
      by (apply (b64_catalog_eq_known s s' k H); eauto).
    congruence.
Qed.

Lemma b64_well_formed_frame s s' :
  well_formed s -> user_dict s' = user_dict s -> catalog s' = catalog s ->
  well_formed s'.
Proof.
  intros [I1 I2 I3 I4] Hu Hc. split.
  - intros k m' Hm'. destruct (b64_catalog_eq_record _ _ _ _ Hc Hm') as (m & Hm & Hid & _).
    apply I1 in Hm. congruence.
  - intros k u. rewrite (b64_catalog_eq_raters _ _ _ Hc). unfold rating_of. rewrite Hu.
    apply I2.
  - intros u m. rewrite (b64_catalog_eq_known _ _ _ Hc). unfold rating_of. rewrite Hu.
    apply I3.
  - intros u d. rewrite Hu. apply I4.
Qed.

Lemma b64_store_similarity_known s m key v :
  is_Some (movie_dict s !! m) ->
  store_similarity m key v s = (inr tt, with_cache_entry s m key v).
Proof.
  intros [o Ho]. unfold store_similarity, with_cache_entry, bind, get_state, getitem.
  by rewrite Ho.
Qed.

Lemma b64_cache_with_cache_entry s m key v x y :
  is_Some (movie_dict s !! m) ->
  cache (with_cache_entry s m key v) x y =
  if decide (x = m /\ y = key) then Some v else cache s x y.
Proof.
  intros [o Ho]. unfold with_cache_entry, cache. rewrite Ho. simpl.
  rewrite lookup_insert. destruct (decide (m = x)) as [->|Hm].
  - simpl. rewrite lookup_insert. rewrite Ho.
    destruct (decide (key = y)) as [->|Hk].
    + by rewrite decide_True.
    + rewrite decide_False; [done | intros [_ ?]; done].
  - rewrite decide_False; [done | intros [? _]; done].
Qed.

Lemma b64_stores_with_cache_entry s m key v :
  user_dict (with_cache_entry s m key v) = user_dict s /\
  catalog (with_cache_entry s m key v) = catalog s.
Proof.
  unfold with_cache_entry. destruct (movie_dict s !! m) as [o|] eqn:Ho; [|done].
  simpl. split; [done|]. unfold catalog. simpl. apply map_eq. intros k.
  rewrite !lookup_fmap, lookup_insert.
  case_decide; subst; [by rewrite Ho | done].
Qed.

Lemma b64_stores_similarity_state s a b :
  user_dict (similarity_state s a b) = user_dict s /\
  catalog (similarity_state s a b) = catalog s.
Proof.
  unfold similarity_state. destruct (cache s a b); [done|].
  destruct (b64_stores_with_cache_entry
              (with_cache_entry s a b (similarity_value s a b)) b a (similarity_value s a b))
    as [-> ->].
  apply b64_stores_with_cache_entry.
Qed.

Lemma b64_well_formed_similarity_state s a b :
  well_formed s -> well_formed (similarity_state s a b).
Proof.
  intros Hs. destruct (b64_stores_similarity_state s a b). by apply (b64_well_formed_frame s).
Qed.

Lemma b64_known_similarity_state s a b k :
  is_Some (movie_dict (similarity_state s a b) !! k) <-> is_Some (movie_dict s !! k).
Proof. apply b64_catalog_eq_known. apply b64_stores_similarity_state. Qed.

(** ** What [compute_similarity] returns *)

Lemma b64_similarity_loop_spec s a b B A acc :
  (forall u, u ∈ A -> u ∈ B -> is_Some (rating_of s u a) /\ is_Some (rating_of s u b)) ->
  similarity_loop a b B A acc s =
  (inr (fold_left (fun t u => (t + abs_diff s a b u)%float) (filter (fun u => u ∈ B) A) acc.1,
        acc.2 + Z.of_nat (length (filter (fun u => u ∈ B) A))), s).
Proof.
  revert acc. induction A as [|user rest IH]; intros [total count] Hr; cbn [similarity_loop].
  - unfold ret. cbn [fst snd filter list_filter fold_left length]. by rewrite Z.add_0_r.
  - rewrite filter_cons. case_bool_decide as Hin.
    + rewrite decide_True by done.
      destruct (Hr user) as [[r Hra] [r2 Hrb]]; [left | done |].
      assert (exists d, user_dict s !! user = Some d /\ dict_get d a = Some r /\
                        dict_get d b = Some r2) as (d & Hd & Hda & Hdb).
      { unfold rating_of in Hra, Hrb. destruct (user_dict s !! user) as [d|]; [|done]. eauto. }
      unfold bind at 1. unfold get_state.
      rewrite (b64_bind_inr _ _ _ _ _ (b64_getitem_Some _ _ _ s Hd)).
      unfold dict_getitem. rewrite Hda. unfold bind at 1, ret at 1.
      rewrite (b64_bind_inr _ _ _ _ _ (b64_getitem_Some _ _ _ s Hd)).
      rewrite Hdb. unfold bind at 1, ret at 1.
      rewrite IH by (intros; apply Hr; [by right | done]).
      assert (abs_diff s a b user = PrimFloat.abs (r - r2)%float) as Habs
        by (unfold abs_diff; by rewrite Hra, Hrb).
      cbn [fst snd length fold_left]. rewrite Habs. do 3 f_equal. lia.
    + rewrite decide_False by done. apply IH. intros; apply Hr; [by right | done].
Qed.

Lemma b64_compute_similarity_spec s a b :
  well_formed s -> is_Some (movie_dict s !! a) -> is_Some (movie_dict s !! b) ->
  compute_similarity a b s = (inr (similarity_value s a b), s).
Proof.
  intros Hs [ma Ha] [mb Hb]. unfold compute_similarity.
  rewrite (b64_bind_inr _ _ s ma s) by by apply b64_movie_obj_Some.
  unfold bind at 1. unfold get_state.
  rewrite (b64_bind_inr _ _ _ _ _ (b64_getitem_Some _ _ _ s Hb)).
  rewrite (ids_are_keys s Hs a ma Ha).
  erewrite b64_bind_inr; cycle 1.
  { apply b64_similarity_loop_spec. intros u Hu1 Hu2.
    split; apply (raters_rated s Hs); unfold raters; by rewrite ?Ha, ?Hb. }
  unfold similarity_value, common_raters, raters. rewrite Ha, Hb.
  cbn [fst snd]. destruct (filter _ (Movie.users ma)) as [|u us]; [done|].
  replace (0 + Z.of_nat (length (u :: us)) =? 0) with false
    by (symmetry; apply Z.eqb_neq; simpl length; lia).
  by rewrite Z.add_0_l.
Qed.

(** ** What [get_similarity] returns *)

Lemma b64_get_similarity_hit s a b v :
  cache s a b = Some v -> get_similarity a b s = (inr (Some v), s).
Proof.
  unfold cache. intros H. destruct (movie_dict s !! a) as [ma|] eqn:Ha; [|done].
  unfold get_similarity, try_except.
  rewrite (b64_bind_inr _ _ _ _ _ (b64_movie_obj_Some _ _ _ Ha)). by rewrite H.
Qed.

Lemma b64_get_similarity_known s a b :
  well_formed s -> is_Some (movie_dict s !! a) -> is_Some (movie_dict s !! b) ->
  get_similarity a b s = (inr (Some (weight s a b)), similarity_state s a b).
Proof.
  intros Hs [ma Ha] [mb Hb]. unfold weight, similarity_state.
  destruct (cache s a b) as [v|] eqn:Hc; [by apply b64_get_similarity_hit|].
  unfold cache in Hc. rewrite Ha in Hc.
  unfold get_similarity, try_except.
  rewrite (b64_bind_inr _ _ _ _ _ (b64_movie_obj_Some _ _ _ Ha)). rewrite Hc.
  unfold bind at 1. unfold get_state. rewrite Hb.
  rewrite (b64_bind_inr _ _ _ _ _
             (b64_compute_similarity_spec s a b Hs (ex_intro _ _ Ha) (ex_intro _ _ Hb))).
  erewrite b64_bind_inr; cycle 1.
  { apply b64_store_similarity_known. eauto. }
  erewrite b64_bind_inr; cycle 1.
  { apply b64_store_similarity_known.
    apply (b64_catalog_eq_known s); [apply b64_stores_with_cache_entry | eauto]. }
  rewrite (ids_are_keys s Hs a ma Ha). done.
Qed.

Lemma b64_similarity_value_frame s s' a b :
  user_dict s' = user_dict s -> catalog s' = catalog s ->
  similarity_value s' a b = similarity_value s a b.
Proof.
  intros Hu Hc. unfold similarity_value, common_raters, abs_diff, rating_of.
  by rewrite !(b64_catalog_eq_raters s s' _ Hc), Hu.
Qed.

Lemma b64_cache_similarity_state s a b x y :
  is_Some (movie_dict s !! a) -> is_Some (movie_dict s !! b) -> cache s a b = None ->
  cache (similarity_state s a b) x y =
  if decide (x = b /\ y = a) then Some (similarity_value s a b)
  else if decide (x = a /\ y = b) then Some (similarity_value s a b)
  else cache s x y.
Proof.
  intros Ha Hb Hc. unfold similarity_state. rewrite Hc.
  rewrite b64_cache_with_cache_entry
    by (apply (b64_catalog_eq_known s); [apply b64_stores_with_cache_entry | done]).
  by rewrite b64_cache_with_cache_entry.
Qed.

(** One call of [get_similarity] on [a] does not change what a later call
    on [a] returns. *)
Lemma b64_weight_stable s a b m :
  is_Some (movie_dict s !! a) -> is_Some (movie_dict s !! b) ->
  weight (similarity_state s a b) a m = weight s a m.
Proof.
  intros Ha Hb. destruct (cache s a b) as [v|] eqn:Hc.
  { unfold similarity_state. by rewrite Hc. }
  destruct (b64_stores_similarity_state s a b) as [Hu Hcat].
  unfold weight at 1. rewrite b64_cache_similarity_state by done.
  destruct (decide (a = b /\ m = a)) as [[<- ->]|N1]; [unfold weight; by rewrite Hc|].
  destruct (decide (a = a /\ m = b)) as [[_ ->]|N2]; [unfold weight; by rewrite Hc|].
  unfold weight. destruct (cache s a m); [done|].
  by apply b64_similarity_value_frame.
Qed.

(** ** What [predict_rating] returns *)

Lemma b64_fold_weights_ext s s' i (d : ratings) keys (acc : float * float) :
  (forall m, weight s' i m = weight s i m) ->
  fold_left (fun nd m => ((nd.1 + default 0%float (dict_get d m) * weight s' i m)%float,
                          (nd.2 + weight s' i m)%float)) keys acc =
  fold_left (fun nd m => ((nd.1 + default 0%float (dict_get d m) * weight s i m)%float,
                          (nd.2 + weight s i m)%float)) keys acc.
Proof.
  intros H. revert acc. induction keys as [|m rest IH]; intros acc; [done|].
  cbn [fold_left]. rewrite H. apply IH.
Qed.

Lemma b64_predict_loop_spec s i d keys acc :
  well_formed s -> is_Some (movie_dict s !! i) ->
  (forall m, m ∈ keys -> is_Some (dict_get d m) /\ is_Some (movie_dict s !! m)) ->
  predict_loop i d keys acc s =
  (inr (fold_left (fun nd m => ((nd.1 + default 0%float (dict_get d m) * weight s i m)%float,
                                (nd.2 + weight s i m)%float)) keys acc),
   loop_state s i keys).
Proof.
  revert s acc. induction keys as [|m rest IH]; intros s [n dn] Hs Hi Hkeys; [done|].
  destruct (Hkeys m) as [[r Hr] Hm]; [by left|].
  assert (Hi' : is_Some (movie_dict (similarity_state s i m) !! i))
    by by apply b64_known_similarity_state.
  assert (Hs' := b64_well_formed_similarity_state s i m Hs).
  assert (Hm' : is_Some (movie_dict (similarity_state s i m) !! m))
    by by apply b64_known_similarity_state.
  assert (Hc : cache (similarity_state s i m) i m = Some (weight s i m)).
  { unfold weight. destruct (cache s i m) as [v|] eqn:Hcm.
    - unfold similarity_state. by rewrite Hcm.
    - rewrite b64_cache_similarity_state by done.
      destruct (decide (i = m /\ m = i)); [done|]. by rewrite decide_True. }
  destruct Hi as [mi Hmi]. destruct Hi' as [mi' Hmi'].
  cbn [predict_loop]. unfold dict_getitem. rewrite Hr.
  unfold bind at 1. unfold ret at 1.
  rewrite (b64_bind_inr _ _ _ _ _ (b64_movie_obj_Some _ _ _ Hmi)).
  rewrite (b64_bind_inr _ _ _ _ _ (b64_get_similarity_known s i m Hs (ex_intro _ _ Hmi) Hm)).
  unfold py_mul. unfold bind at 1. unfold ret at 1.
  rewrite (b64_bind_inr _ _ _ _ _ (b64_movie_obj_Some _ _ _ Hmi')).
  rewrite (b64_bind_inr _ _ _ _ _ (b64_get_similarity_hit _ i m _ Hc)).
  unfold py_add. unfold bind at 1. unfold ret at 1.
  rewrite IH; try done.
  - cbn [loop_state fold_left fst snd]. f_equal. f_equal.
    rewrite (b64_fold_weights_ext s (similarity_state s i m))
      by (intros; apply b64_weight_stable; eauto).
    rewrite Hr. reflexivity.
  - intros m' Hm'0. destruct (Hkeys m') as [? ?]; [by right|].
    split; [done|]. by apply b64_known_similarity_state.
Qed.

Lemma b64_dict_get_keys d m : m ∈ dict_keys d -> is_Some (dict_get d m).
Proof.
  unfold dict_keys. induction d as [|[k v] d IH]; simpl.
  - by intros ?%elem_of_nil.
  - intros [->|H]%elem_of_cons; [by rewrite decide_True|].
    case_decide; eauto.
Qed.

Lemma b64_dict_get_NoDup d k v :
  NoDup (dict_keys d) -> (k, v) ∈ d -> dict_get d k = Some v.
Proof.
  unfold dict_keys. induction d as [|[k0 v0] d IH]; simpl; intros Hnd Hin.
  - by apply elem_of_nil in Hin.
  - apply NoDup_cons in Hnd as [Hk0 Hnd].
    apply elem_of_cons in Hin as [[= <- <-]|Hin]; [by rewrite decide_True|].
    rewrite decide_False; [by apply IH|].
    intros ->. apply Hk0. apply list_elem_of_fmap. by exists (k, v).
Qed.

(** The loop over the keys accumulates the two sums over the pairs. *)
Lemma b64_fold_keys_pairs s i (d l : ratings) (n0 d0 : float) :
  (forall kr, kr ∈ l -> dict_get d kr.1 = Some kr.2) ->
  fold_left (fun nd m => ((nd.1 + default 0%float (dict_get d m) * weight s i m)%float,
                          (nd.2 + weight s i m)%float)) (dict_keys l) (n0, d0) =
  (numerator_of s i l n0, denominator_of s i l d0).
Proof.
  unfold dict_keys, numerator_of, denominator_of. revert n0 d0.
  induction l as [|[k v] l IH]; intros n0 d0 H; [done|].
  pose proof (H (k, v) ltac:(by left)) as Hk. cbn [fst snd] in Hk.
  cbn [map fold_left fst snd]. rewrite Hk. cbn [default from_option id].
  apply IH. intros kr Hkr. apply H. by right.
Qed.

Lemma b64_rated_keys_known s u d m :
  well_formed s -> user_dict s !! u = Some d -> m ∈ dict_keys d ->
  is_Some (dict_get d m) /\ is_Some (movie_dict s !! m).
Proof.
  intros Hs Hd Hm. apply b64_dict_get_keys in Hm. split; [done|].
  apply (rated_known s Hs u). unfold rating_of. by rewrite Hd.
Qed.

Lemma b64_predict_rating_unrated s u i d :
  well_formed s -> user_dict s !! u = Some d -> is_Some (movie_dict s !! i) ->
  dict_get d i = None ->
  predict_rating u i s =
  (inr (if PrimFloat.eqb (denominator_of s i d 0%float) 0%float then 2.5%float
        else (numerator_of s i d 0%float / denominator_of s i d 0%float)%float),
   loop_state s i (dict_keys d)).
Proof.
  intros Hs Hd Hi Hnot. unfold predict_rating. unfold bind at 1. unfold get_state.
  rewrite Hd. destruct Hi as [mi Hmi]. rewrite Hmi, Hnot.
  rewrite (b64_bind_inr _ _ _ _ _
             (b64_predict_loop_spec s i d (dict_keys d) (0%float, 0%float) Hs
                (ex_intro _ _ Hmi) (fun m => b64_rated_keys_known s u d m Hs Hd))).
  rewrite (b64_fold_keys_pairs s i d d)
    by (intros [k v] Hkr; by apply b64_dict_get_NoDup; [apply (keys_unique s Hs u)|]).
  by destruct (PrimFloat.eqb _ _).
Qed.

(** ** [__init__] builds a well-formed object *)

Lemma b64_dict_get_set d k v k' :
  dict_get (dict_set d k v) k' = if decide (k = k') then Some v else dict_get d k'.
Proof.
  induction d as [|[k0 v0] d IH]; simpl.
  - done.
  - destruct (decide (k0 = k)) as [->|Hk0]; simpl.
    + by destruct (decide (k = k')).
    + rewrite IH. destruct (decide (k0 = k')) as [->|]; [by rewrite decide_False|done].
Qed.

Lemma b64_dict_keys_set d k v x :
  x ∈ dict_keys (dict_set d k v) <-> x = k \/ x ∈ dict_keys d.
Proof.
  unfold dict_keys. induction d as [|[k0 v0] d IH]; simpl.
  - rewrite list_elem_of_singleton. split; [eauto | intros [?|?%elem_of_nil]; done].
  - destruct (decide (k0 = k)) as [->|Hk0]; simpl; rewrite !elem_of_cons.
    + tauto.
    + rewrite IH. tauto.
Qed.

Lemma b64_dict_keys_set_NoDup d k v :
  NoDup (dict_keys d) -> NoDup (dict_keys (dict_set d k v)).
Proof.
  induction d as [|[k0 v0] d IH]; simpl; intros Hd.
  - apply NoDup_singleton.
  - apply NoDup_cons in Hd as [Hk0 Hd].
    destruct (decide (k0 = k)) as [->|Hne]; simpl.
    + by apply NoDup_cons.
    + apply NoDup_cons. split; [|by apply IH].
      rewrite b64_dict_keys_set. intros [?|?]; done.
Qed.

Lemma b64_well_formed_empty : well_formed empty_state.
Proof.
  split; try done.
  - intros k u. unfold raters. simpl. rewrite lookup_empty. by intros ?%elem_of_nil.
  - intros u m. unfold rating_of. simpl. rewrite lookup_empty. by intros [? ?].
Qed.

Lemma b64_add_movie_well_formed line s :
  well_formed s -> user_dict s = ∅ ->
  exists s', add_movie line s = (inr tt, s') /\ well_formed s' /\ user_dict s' = ∅.
Proof.
  intros Hl Hu. eexists. split; [reflexivity|]. simpl. split; [|done].
  assert (Hr : forall s0 u m, user_dict s0 = ∅ -> rating_of s0 u m = None).
  { intros s0 u m H0. unfold rating_of. by rewrite H0, lookup_empty. }
  split; simpl.
  - intros k m. rewrite lookup_insert. case_decide; [by intros [= <-] | apply Hl].
  - intros k u. unfold raters. simpl. rewrite lookup_insert.
    case_decide; [by intros ?%elem_of_nil|].
    intros H'. apply (raters_rated s Hl k u) in H'. rewrite Hr in H' by done. by destruct H'.
  - intros u m. rewrite Hr by done. by intros [? ?].
  - intros u d. rewrite Hu, lookup_empty. done.
Qed.

Lemma b64_for_each_add_movie movies s :
  well_formed s -> user_dict s = ∅ ->
  exists s', for_each add_movie movies s = (inr tt, s') /\ well_formed s'.
Proof.
  revert s. induction movies as [|line rest IH]; intros s Hl Hu; cbn [for_each].
  - by exists s.
  - destruct (b64_add_movie_well_formed line s Hl Hu) as (s1 & H1 & Hl1 & Hu1).
    rewrite (b64_bind_inr _ _ _ _ _ H1). by apply IH.
Qed.

Lemma b64_add_rating_well_formed u m r s s' :
  well_formed s -> add_rating (u, m, r) s = (inr tt, s') -> well_formed s'.
Proof.
  intros Hl. unfold add_rating, bind, get_state, put_state, getitem. simpl.
  destruct (movie_dict s !! m) as [a|] eqn:Ha; [|done]. simpl. intros [= <-].
  set (d' := match user_dict s !! u with Some d => dict_set d m r | None => [(m, r)] end).
  assert (Hud : (match user_dict s !! u with
                 | Some d => <[u := dict_set d m r]> (user_dict s)
                 | None => <[u := [(m, r)]]> (user_dict s)
                 end) = <[u := d']> (user_dict s))
    by (unfold d'; by destruct (user_dict s !! u)).
  rewrite Hud. clear Hud.
  assert (Hget : forall k, dict_get d' k =
                   if decide (m = k) then Some r
                   else match user_dict s !! u with Some d => dict_get d k | None => None end).
  { intros k. unfold d'. destruct (user_dict s !! u) as [d|]; [apply b64_dict_get_set|].
    simpl. by destruct (decide (m = k)). }
  assert (Hmono : forall u' k, is_Some (rating_of s u' k) ->
            is_Some (rating_of (mkState (<[u := d']> (user_dict s))
              (<[m := Movie.with_users a (Movie.users a ++ [u])]> (movie_dict s))) u' k)).
  { intros u' k. unfold rating_of. simpl. rewrite lookup_insert.
    destruct (decide (u = u')) as [<-|]; [|done].
    rewrite Hget. destruct (decide (m = k)); eauto. }
  split; simpl.
  - intros k m0. rewrite lookup_insert.
    case_decide as Hk; [intros [= <-]; simpl; subst k; by apply (ids_are_keys s Hl) | apply Hl].
  - intros k u'. unfold raters at 1. simpl. rewrite lookup_insert.
    destruct (decide (m = k)) as [<-|Hk].
    + simpl. intros [Hin| ->%list_elem_of_singleton]%elem_of_app.
      * apply Hmono, (raters_rated s Hl). unfold raters. by rewrite Ha.
      * unfold rating_of. simpl. rewrite lookup_insert_eq, Hget. by rewrite decide_True.
    + intros Hin. by apply Hmono, (raters_rated s Hl).
  - intros u' k. unfold rating_of. simpl. rewrite !lookup_insert.
    destruct (decide (m = k)) as [<-|Hk]; [eauto|].
    destruct (decide (u = u')) as [<-|Hu].
    + rewrite Hget, decide_False by done. intros H'.
      apply (rated_known s Hl u). unfold rating_of. by destruct (user_dict s !! u).
    + apply (rated_known s Hl u').
  - intros u' d. rewrite lookup_insert.
    destruct (decide (u = u')) as [<-|Hu]; [|apply Hl].
    intros [= <-]. unfold d'. destruct (user_dict s !! u) as [d0|] eqn:Hd0.
    + apply b64_dict_keys_set_NoDup. by apply (keys_unique s Hl u).
    + apply NoDup_singleton.
Qed.

Lemma b64_for_each_add_rating training s s' :
  well_formed s -> for_each add_rating training s = (inr tt, s') -> well_formed s'.
Proof.
  revert s. induction training as [|[[u m] r] rest IH]; intros s Hl; cbn [for_each].
  - by intros [= <-].
  - unfold bind at 1. destruct (add_rating (u, m, r) s) as [[e|[]] s1] eqn:H1; [done|].
    apply IH. by apply (b64_add_rating_well_formed u m r s).
Qed.

(** A constructed object is well formed. *)
Lemma b64_load_well_formed movies training s :
  load movies training = inr s -> well_formed s.
Proof.
  unfold load, init.
  destruct (b64_for_each_add_movie movies empty_state b64_well_formed_empty eq_refl)
    as (s1 & H1 & Hl1).
  rewrite (b64_bind_inr _ _ _ _ _ H1).
  destruct (for_each add_rating training s1) as [[e|[]] s2] eqn:H2; [done|].
  intros [= <-]. by apply (b64_for_each_add_rating training s1).
Qed.

Lemma b64_sample_well_formed : well_formed sample_state.
Proof. apply (b64_load_well_formed sample_movies sample_training). by vm_compute. Qed.

Lemma b64_demo_well_formed : well_formed demo_state.
Proof. apply (b64_load_well_formed sample_movies demo_training). by vm_compute. Qed.

(** C2.  In binary64 arithmetic, on a well-formed object (what [__init__]
    builds and every call keeps), for a known user with ratings [d] and a
    known movie [i] the user has not rated: for every rated movie,
    [get_similarity] on [i] returns its weight, which is the cached value or,
    with nothing cached, what [compute_similarity] returns; and
    [predict_rating] returns the numerator, the sum from 0 of rating times
    weight in the order of the user's dictionary, divided by the
    denominator, the sum from 0 of the weights, both with the rounding of
    the code, and exactly 2.5 when that denominator compares equal to 0. *)
Theorem predict_rating_weighted_average s u i d :
  well_formed s -> user_dict s !! u = Some d -> is_Some (movie_dict s !! i) ->
  dict_get d i = None ->
  let numerator := numerator_of s i d 0%float in
  let denominator := denominator_of s i d 0%float in
  Forall (fun kr =>
            (get_similarity i kr.1 s).1 = inr (Some (weight s i kr.1)) /\
            (cache s i kr.1 = None ->
             (compute_similarity i kr.1 s).1 = inr (weight s i kr.1))) d /\
  (PrimFloat.eqb denominator 0%float = true ->
   (predict_rating u i s).1 = inr 2.5%float) /\
  (PrimFloat.eqb denominator 0%float = false ->
   (predict_rating u i s).1 = inr (numerator / denominator)%float).
Proof.
  intros Hs Hd Hi Hnot numerator denominator. split_and!.
  - apply Forall_forall. intros [k v] Hkr. cbn [fst].
    assert (Hk : k ∈ dict_keys d) by (apply list_elem_of_fmap; by exists (k, v)).
    destruct (b64_rated_keys_known s u d k Hs Hd Hk) as [_ Hknown]. split.
    + by rewrite b64_get_similarity_known.
    + intros Hmiss. rewrite b64_compute_similarity_spec by done.
      unfold weight. by rewrite Hmiss.
  - intros Hz. rewrite (b64_predict_rating_unrated s u i d) by done.
    fold denominator. by rewrite Hz.
  - intros Hz. rewrite (b64_predict_rating_unrated s u i d) by done.
    fold denominator. by rewrite Hz.
Qed.

Lemma predict_rating_weighted_average_witness :
  (* user 3 and movie 2 of the extended scenario: the weights are 0 and
     0.5555555555555556, and the quotient is taken *)
  (well_formed sample_state /\
   user_dict sample_state !! 3 = Some [(3, 1%float); (1, 2%float)] /\
   is_Some (movie_dict sample_state !! 2) /\
   dict_get [(3, 1%float); (1, 2%float)] 2 = None /\
   PrimFloat.eqb
     (denominator_of sample_state 2 [(3, 1%float); (1, 2%float)] 0%float) 0%float = false /\
   Forall (fun kr =>
             (get_similarity 2 kr.1 sample_state).1 =
               inr (Some (weight sample_state 2 kr.1)) /\
             (cache sample_state 2 kr.1 = None ->
              (compute_similarity 2 kr.1 sample_state).1 =
                inr (weight sample_state 2 kr.1)))
     [(3, 1%float); (1, 2%float)] /\
   (predict_rating 3 2 sample_state).1 =
     inr (PrimFloat.div
            (numerator_of sample_state 2 [(3, 1%float); (1, 2%float)] 0%float)
            (denominator_of sample_state 2 [(3, 1%float); (1, 2%float)] 0%float))) /\
  (* user 1 and movie 3 of the scenario: both weights are 0 *)
  (well_formed demo_state /\
   user_dict demo_state !! 1 = Some [(1, 5%float); (2, 3%float)] /\
   is_Some (movie_dict demo_state !! 3) /\
   dict_get [(1, 5%float); (2, 3%float)] 3 = None /\
   PrimFloat.eqb
     (denominator_of demo_state 3 [(1, 5%float); (2, 3%float)] 0%float) 0%float = true /\
   (predict_rating 1 3 demo_state).1 = inr 2.5%float).
Proof.
  assert (Hd : user_dict sample_state !! 3 = Some [(3, 1%float); (1, 2%float)])
    by (vm_compute; reflexivity).
  assert (Hi : is_Some (movie_dict sample_state !! 2)) by (vm_compute; by eexists).
  assert (Hn : dict_get [(3, 1%float); (1, 2%float)] 2 = None) by reflexivity.
  assert (Hz : PrimFloat.eqb
                 (denominator_of sample_state 2 [(3, 1%float); (1, 2%float)] 0%float)
                 0%float = false) by (vm_compute; reflexivity).
  assert (Hd' : user_dict demo_state !! 1 = Some [(1, 5%float); (2, 3%float)])
    by (vm_compute; reflexivity).
  assert (Hi' : is_Some (movie_dict demo_state !! 3)) by (vm_compute; by eexists).
  assert (Hn' : dict_get [(1, 5%float); (2, 3%float)] 3 = None) by reflexivity.
  assert (Hz' : PrimFloat.eqb
                  (denominator_of demo_state 3 [(1, 5%float); (2, 3%float)] 0%float)
                  0%float = true) by (vm_compute; reflexivity).
  destruct (predict_rating_weighted_average sample_state 3 2 _
              b64_sample_well_formed Hd Hi Hn) as (Hw & _ & Hdiv).
  destruct (predict_rating_weighted_average demo_state 1 3 _
              b64_demo_well_formed Hd' Hi' Hn') as (_ & Hfall & _).
  split; split_and!; try assumption.
  - apply b64_sample_well_formed.
  - exact (Hdiv Hz).
  - apply b64_demo_well_formed.
  - exact (Hfall Hz').
Defined.

(** The values in the scenarios: the quotient 1.1111111111111112 /
    0.55555555555555558 is 2; in the scenario of the specification the
    weights are 0 and the prediction is 2.5; and three weights that cancel
    in exact arithmetic sum to -0x1p-53, about -1.11e-16, as floats, so
    that the code divides. *)
Example predict_rating_binary64_scenarios :
  (predict_rating 3 2 sample_state).1 = inr 2%float /\
  (get_similarity 1 2 demo_state).1 = inr (Some 0x1.1c71c71c71c72p-1%float) /\
  (predict_rating 1 3 demo_state).1 = inr 2.5%float /\
  load cancelling_movies cancelling_training = inr cancelling_state /\
  denominator_of cancelling_state 4 [(1, 1%float); (2, 2%float); (3, 3%float)] 0%float =
    (-0x1p-53)%float /\
  (predict_rating 1 4 cancelling_state).1 = inr 3002399751580333%float.
Proof. split_and!; vm_compute; reflexivity. Qed.

End Binary64_proofs.
